(** * Portfolio backend: contact workflow, visitor tracker, blog views,
      contact administration

    A shallow embedding of the Express application (the server file of the
    repository): the request handlers are state-passing functions over a
    [world] that holds the MongoDB collections, the mail transport's outbox
    and the rate limiter's store.  Failures of the outside world (storage,
    mail transport) and the wall clock are read from an [env] oracle, so
    that every statement below quantifies over all of them. *)

From Stdlib Require Import ZArith Lia Bool Ascii String List.
From stdpp Require Import gmap strings list.

(** ** JavaScript strings

    A string is a sequence of code units.  The embedding covers code units
    below 256 (the Latin-1 range), carried by [ascii]. *)

Module JS.

Definition code (c : ascii) : N := N_of_ascii c.

(** The class [\s] of a regular expression, which is also the set of code
    units that [String.prototype.trim] strips: TAB, LF, VT, FF, CR, SPACE
    and NO-BREAK SPACE are its members below 256. *)
Definition is_space (c : ascii) : bool :=
  ((9 <=? code c)%N && (code c <=? 13)%N) || (code c =? 32)%N || (code c =? 160)%N.

Fixpoint trimStart (s : string) : string :=
  match s with
  | EmptyString => EmptyString
  | String c s' => if is_space c then trimStart s' else s
  end.

Fixpoint trimEnd (s : string) : string :=
  match s with
  | EmptyString => EmptyString
  | String c s' =>
      match trimEnd s' with
      | EmptyString => if is_space c then EmptyString else String c EmptyString
      | t => String c t
      end
  end.

(** [s.trim()] *)
Definition trim (s : string) : string := trimEnd (trimStart s).

(** Lower-casing of one code unit: A-Z, and the capital letters of the
    Latin-1 supplement (U+00C0 to U+00DE without the multiplication sign
    U+00D7), move up by 32. *)
Definition lower_char (c : ascii) : ascii :=
  let n := code c in
  if ((65 <=? n) && (n <=? 90) || (192 <=? n) && (n <=? 222) && negb (n =? 215))%N
  then ascii_of_N (n + 32) else c.

(** [s.toLowerCase()] *)
Fixpoint toLowerCase (s : string) : string :=
  match s with
  | EmptyString => EmptyString
  | String c s' => String (lower_char c) (toLowerCase s')
  end.

Definition is_empty (s : string) : bool :=
  match s with EmptyString => true | _ => false end.

Fixpoint forallb_str (p : ascii -> bool) (s : string) : bool :=
  match s with
  | EmptyString => true
  | String c s' => p c && forallb_str p s'
  end.

(** [s.includes(c)] for a single code unit *)
Fixpoint includes (c : ascii) (s : string) : bool :=
  match s with
  | EmptyString => false
  | String d s' => Ascii.eqb c d || includes c s'
  end.

(** *** Values of a parsed request body

    A field of a JSON or url-encoded body is absent ([undefined] after
    destructuring), a string, or some other value (null, a boolean, a
    number, an array, an object).  The handlers observe three things of a
    value that is not a string: whether it is truthy, what [ToString]
    makes of it ([None] when the conversion throws), and that it has no
    [trim] method. *)
Inductive jsval : Type :=
| JUndefined
| JStr (s : string)
| JOther (truthy : bool) (image : option string).

(** [!!v] *)
Definition truthy (v : jsval) : bool :=
  match v with
  | JUndefined => false
  | JStr s => negb (is_empty s)
  | JOther t _ => t
  end.

(** [String(v)], as a regular expression's [test] and a template literal
    apply it; [None] when it throws. *)
Definition ToString (v : jsval) : option string :=
  match v with
  | JUndefined => Some "undefined"
  | JStr s => Some s
  | JOther _ i => i
  end.

(** *** Regular expressions

    The fragment of the regular-expression language that the source uses:
    character classes, concatenation and [+].  Matching is by derivatives,
    on the whole input: the one expression of the source is anchored by
    [^] and [$]. *)
Inductive regex : Type :=
| RFail
| REps
| RClass (p : ascii -> bool)
| RSeq (r1 r2 : regex)
| RAlt (r1 r2 : regex)
| RStar (r : regex).

Definition RPlus (r : regex) : regex := RSeq r (RStar r).
Definition RChar (c : ascii) : regex := RClass (Ascii.eqb c).

Fixpoint nullable (r : regex) : bool :=
  match r with
  | RFail => false
  | REps => true
  | RClass _ => false
  | RSeq r1 r2 => nullable r1 && nullable r2
  | RAlt r1 r2 => nullable r1 || nullable r2
  | RStar _ => true
  end.

Fixpoint deriv (c : ascii) (r : regex) : regex :=
  match r with
  | RFail => RFail
  | REps => RFail
  | RClass p => if p c then REps else RFail
  | RSeq r1 r2 =>
      if nullable r1
      then RAlt (RSeq (deriv c r1) r2) (deriv c r2)
      else RSeq (deriv c r1) r2
  | RAlt r1 r2 => RAlt (deriv c r1) (deriv c r2)
  | RStar r1 => RSeq (deriv c r1) (RStar r1)
  end.

(** [/^r$/.test(s)] *)
Fixpoint test (r : regex) (s : string) : bool :=
  match s with
  | EmptyString => nullable r
  | String c s' => test (deriv c r) s'
  end.

(** The words of a regular expression. *)
Inductive lang : regex -> string -> Prop :=
| lang_eps : lang REps EmptyString
| lang_class p c : p c = true -> lang (RClass p) (String c EmptyString)
| lang_seq r1 r2 s1 s2 : lang r1 s1 -> lang r2 s2 -> lang (RSeq r1 r2) (s1 +:+ s2)
| lang_alt_l r1 r2 s : lang r1 s -> lang (RAlt r1 r2) s
| lang_alt_r r1 r2 s : lang r2 s -> lang (RAlt r1 r2) s
| lang_star_nil r : lang (RStar r) EmptyString
| lang_star_cons r s1 s2 :
    lang r s1 -> lang (RStar r) s2 -> lang (RStar r) (s1 +:+ s2).

End JS.

(** ** Documents of the collections (the Mongoose schemas) *)

(** [ContactSchema] *)
Module Contact.
Record doc : Type := {
  _id : nat;
  name : string;
  email : string;
  subject : string;
  message : string;
  ipAddress : option string;
  userAgent : option string;
  status : string;
  createdAt : Z;
  readAt : option Z;
  repliedAt : option Z
}.

(** [enum: ['new', 'read', 'replied', 'archived']] *)
Definition status_enum : list string := ["new"; "read"; "replied"; "archived"].

Definition set_status (s : string) (d : doc) : doc :=
  {| _id := _id d; name := name d; email := email d; subject := subject d;
     message := message d; ipAddress := ipAddress d; userAgent := userAgent d;
     status := s; createdAt := createdAt d; readAt := readAt d;
     repliedAt := repliedAt d |}.

Definition set_readAt (t : Z) (d : doc) : doc :=
  {| _id := _id d; name := name d; email := email d; subject := subject d;
     message := message d; ipAddress := ipAddress d; userAgent := userAgent d;
     status := status d; createdAt := createdAt d; readAt := Some t;
     repliedAt := repliedAt d |}.

Definition set_repliedAt (t : Z) (d : doc) : doc :=
  {| _id := _id d; name := name d; email := email d; subject := subject d;
     message := message d; ipAddress := ipAddress d; userAgent := userAgent d;
     status := status d; createdAt := createdAt d; readAt := readAt d;
     repliedAt := Some t |}.

(** The validators that [save] runs: the four [required] strings are
    not empty (for a String path, Mongoose's [required] refuses the empty
    string), and [status] is one of the [enum]. *)
Definition validate (d : doc) : bool :=
  negb (JS.is_empty (name d)) && negb (JS.is_empty (email d)) &&
  negb (JS.is_empty (subject d)) && negb (JS.is_empty (message d)) &&
  existsb (String.eqb (status d)) status_enum.
End Contact.

(** [VisitorSchema]; of its fields, those that the tracker sets. *)
Module Visitor.
Record visit : Type := { page : string; timestamp : Z }.

Record doc : Type := {
  _id : nat;
  ipAddress : option string;
  userAgent : option string;
  referrer : option string;
  visitedPages : list visit;
  isReturningVisitor : bool;
  createdAt : Z;
  lastVisit : Z
}.

(** [ipAddress] is [required]. *)
Definition validate (d : doc) : bool :=
  match ipAddress d with
  | Some a => negb (JS.is_empty a)
  | None => false
  end.
End Visitor.

(** ** JavaScript numbers that are integers

    A number is a double.  The counters of the schemas are integers, and
    the model covers the integer values: [round_double x] is the double
    next to the integer [x], ties going to the even mantissa of 53 bits
    (magnitudes below 2^53 are exact; the overflow past 2^1024 is left
    out), and the sum of two such numbers is the rounded exact sum. *)
Definition round_double (x : Z) : Z :=
  let m := Z.abs x in
  if (m <? 2 ^ 53)%Z then x
  else
    let e := (Z.log2 m - 52)%Z in
    let q := (m / 2 ^ e)%Z in
    let r := (m mod 2 ^ e)%Z in
    let half := (2 ^ (e - 1))%Z in
    let q' :=
      if (r <? half)%Z then q
      else if (half <? r)%Z then (q + 1)%Z
      else if Z.even q then q else (q + 1)%Z in
    (Z.sgn x * (q' * 2 ^ e))%Z.

(** [a + b] on numbers *)
Definition add_numbers (a b : Z) : Z := round_double (a + b).

(** [BlogSchema]; [views] and [likes] are numbers with integer values. *)
Module Blog.
Record doc : Type := {
  _id : nat;
  title : string;
  slug : string;
  content : string;
  published : bool;
  views : Z;
  likes : Z
}.

Definition set_views (v : Z) (d : doc) : doc :=
  {| _id := _id d; title := title d; slug := slug d; content := content d;
     published := published d; views := v; likes := likes d |}.

(** The validators that [save] runs: [title], [slug] and [content] are
    [required], and so not empty. *)
Definition validate (d : doc) : bool :=
  negb (JS.is_empty (title d)) && negb (JS.is_empty (slug d)) &&
  negb (JS.is_empty (content d)).
End Blog.

(** The options object handed to [transporter.sendMail]. *)
Module Mail.
Record options : Type := {
  from : option string;
  to : string;
  subject : string;
  html : string
}.
End Mail.

(** ** Requests and responses *)

Record request : Type := {
  ip : string;                        (* req.ip *)
  remoteAddress : option string;      (* req.connection.remoteAddress *)
  originalUrl : string;
  userAgentHeader : option string;    (* req.get('User-Agent') *)
  referrerHeader : option string;     (* req.get('Referrer') *)
  authorization : option string;      (* req.headers['authorization'] *)
  param : string;                     (* req.params.slug, req.params.id *)
  body : gmap string JS.jsval
}.

(** [req.body.k] *)
Definition field (k : string) (req : request) : JS.jsval :=
  match body req !! k with
  | Some v => v
  | None => JS.JUndefined
  end.

Inductive payload : Type :=
| Message (m : string)                        (* res.json({ message }) *)
| Text (m : string)                           (* res.send(message) *)
| BlogJson (b : Blog.doc)                     (* res.json(blog) *)
| ContactJson (m : string) (c : Contact.doc). (* res.json({ message, contact }) *)

Record response : Type := { code : nat; content : payload }.

(** What a middleware does with a request: answer it, or call [next()]. *)
Inductive flow : Type :=
| Next
| Respond (r : response).

(** ** The world outside the process *)

Inductive collection : Type := Contacts | Visitors | Blogs.

Inductive effect : Type :=
| DbRead (c : collection)
| DbWrite (c : collection)
| SendMail (m : Mail.options).

(** An input or output operation that was attempted, and whether it
    succeeded. *)
Record event : Type := { eff : effect; succeeded : bool }.

Record world : Type := {
  contacts : list Contact.doc;
  visitors : list Visitor.doc;
  blogs : list Blog.doc;
  outbox : list Mail.options;             (* mails the transport accepted *)
  contactHits : gmap string (nat * Z);    (* the store of [contactLimiter] *)
  ticks : nat;                            (* clock readings made so far *)
  next_id : nat;                          (* document ids handed out so far *)
  trace : list event
}.

(** What the handlers cannot decide: which operations fail, what time it
    is, the configuration, and the verdicts of the libraries that check
    tokens and cast values. *)
Record env : Type := {
  fault : nat -> bool;               (* the n-th operation of the trace fails *)
  clock : nat -> Z;                  (* the n-th reading of the clock, in ms *)
  EMAIL_USER : option string;        (* process.env.EMAIL_USER *)
  toLocaleString : Z -> string;      (* Date.prototype.toLocaleString *)
  jwt_verify : string -> bool;       (* jwt.verify(token, secret) finds no error *)
  castObjectId : string -> option nat;   (* the cast of an id, None: CastError *)
  castString : bool -> option string -> option string
                                     (* the cast of a value that is no string
                                        to the String type, None: CastError *)
}.

Definition with_contacts (l : list Contact.doc) (w : world) : world :=
  {| contacts := l; visitors := visitors w; blogs := blogs w; outbox := outbox w;
     contactHits := contactHits w; ticks := ticks w; next_id := next_id w;
     trace := trace w |}.

Definition with_visitors (l : list Visitor.doc) (w : world) : world :=
  {| contacts := contacts w; visitors := l; blogs := blogs w; outbox := outbox w;
     contactHits := contactHits w; ticks := ticks w; next_id := next_id w;
     trace := trace w |}.

Definition with_blogs (l : list Blog.doc) (w : world) : world :=
  {| contacts := contacts w; visitors := visitors w; blogs := l; outbox := outbox w;
     contactHits := contactHits w; ticks := ticks w; next_id := next_id w;
     trace := trace w |}.

Definition with_outbox (l : list Mail.options) (w : world) : world :=
  {| contacts := contacts w; visitors := visitors w; blogs := blogs w; outbox := l;
     contactHits := contactHits w; ticks := ticks w; next_id := next_id w;
     trace := trace w |}.

Definition with_contactHits (h : gmap string (nat * Z)) (w : world) : world :=
  {| contacts := contacts w; visitors := visitors w; blogs := blogs w;
     outbox := outbox w; contactHits := h; ticks := ticks w;
     next_id := next_id w; trace := trace w |}.

Definition with_ticks (n : nat) (w : world) : world :=
  {| contacts := contacts w; visitors := visitors w; blogs := blogs w;
     outbox := outbox w; contactHits := contactHits w; ticks := n;
     next_id := next_id w; trace := trace w |}.

Definition with_next_id (n : nat) (w : world) : world :=
  {| contacts := contacts w; visitors := visitors w; blogs := blogs w;
     outbox := outbox w; contactHits := contactHits w; ticks := ticks w;
     next_id := n; trace := trace w |}.

Definition with_trace (t : list event) (w : world) : world :=
  {| contacts := contacts w; visitors := visitors w; blogs := blogs w;
     outbox := outbox w; contactHits := contactHits w; ticks := ticks w;
     next_id := next_id w; trace := t |}.

(** ** The monad of the handlers: state, and exceptions for [throw] *)

Inductive outcome (A : Type) : Type :=
| Ok (a : A)
| Throw.
Arguments Ok {A} a.
Arguments Throw {A}.

Definition M (A : Type) : Type := world -> outcome A * world.

Definition ret {A} (a : A) : M A := fun w => (Ok a, w).

Definition bind {A B} (m : M A) (k : A -> M B) : M B :=
  fun w =>
    match m w with
    | (Ok a, w') => k a w'
    | (Throw, w') => (Throw, w')
    end.

Definition throw {A} : M A := fun w => (Throw, w).

(** [try { m } catch (error) { h }] *)
Definition try_catch {A} (m : M A) (h : M A) : M A :=
  fun w =>
    match m w with
    | (Ok a, w') => (Ok a, w')
    | (Throw, w') => h w'
    end.

Notation "'let!' x ':=' m 'in' k" := (bind m (fun x => k))
  (at level 10, x name, m at level 200, k at level 200).
Notation "'run!' m 'in' k" := (bind m (fun _ => k))
  (at level 10, m at level 200, k at level 200).

Definition get {A} (f : world -> A) : M A := fun w => (Ok (f w), w).
Definition modify (f : world -> world) : M unit := fun w => (Ok tt, f w).

(** [res.status(c).json({ message: m })] *)
Definition json (c : nat) (m : string) : response :=
  {| code := c; content := Message m |}.

(** ** Strings that the handlers build *)

(** The double quote, which the markup of the two mails is full of. *)
Definition dq : string := String (ascii_of_N 34) EmptyString.

(** [`${v}`] for a header that may be missing *)
Definition interp (o : option string) : string :=
  match o with
  | Some s => s
  | None => "undefined"
  end.

(** The [html] of [mailOptions]: the alert to the operator. *)
Definition alert_html (name email subject message ip ua ts : string) : string :=
  "
                <div style=" +:+
  dq +:+
  "font-family: Arial, sans-serif; max-width: 600px; margin: 0 auto;" +:+
  dq +:+
  ">
                    <h2 style=" +:+
  dq +:+
  "color: #667eea;" +:+
  dq +:+
  ">New Contact Form Submission</h2>
                    <div style=" +:+
  dq +:+
  "background: #f8f9fa; padding: 20px; border-radius: 10px; margin: 20px 0;" +:+
  dq +:+
  ">
                        <h3 style=" +:+
  dq +:+
  "color: #333; margin-bottom: 15px;" +:+
  dq +:+
  ">Contact Details:</h3>
                        <p><strong>Name:</strong> " +:+
  name +:+
  "</p>
                        <p><strong>Email:</strong> " +:+
  email +:+
  "</p>
                        <p><strong>Subject:</strong> " +:+
  subject +:+
  "</p>
                    </div>
                    <div style=" +:+
  dq +:+
  "background: #fff; padding: 20px; border: 1px solid #e9ecef; border-radius: 10px;" +:+
  dq +:+
  ">
                        <h3 style=" +:+
  dq +:+
  "color: #333; margin-bottom: 15px;" +:+
  dq +:+
  ">Message:</h3>
                        <p style=" +:+
  dq +:+
  "line-height: 1.6;" +:+
  dq +:+
  ">" +:+
  message +:+
  "</p>
                    </div>
                    <div style=" +:+
  dq +:+
  "margin-top: 20px; padding: 15px; background: #e7f3ff; border-radius: 5px;" +:+
  dq +:+
  ">
                        <small style=" +:+
  dq +:+
  "color: #666;" +:+
  dq +:+
  ">
                            <strong>IP Address:</strong> " +:+
  ip +:+
  "<br>
                            <strong>User Agent:</strong> " +:+
  ua +:+
  "<br>
                            <strong>Timestamp:</strong> " +:+
  ts +:+
  "
                        </small>
                    </div>
                </div>
            ".

(** The [html] of [autoReplyOptions]: the acknowledgment to the sender. *)
Definition reply_html (name subject message : string) : string :=
  "
                <div style=" +:+
  dq +:+
  "font-family: Arial, sans-serif; max-width: 600px; margin: 0 auto;" +:+
  dq +:+
  ">
                    <h2 style=" +:+
  dq +:+
  "color: #667eea;" +:+
  dq +:+
  ">Thank you for reaching out!</h2>
                    <p>Hi " +:+
  name +:+
  ",</p>
                    <p>Thank you for your message. I've received your inquiry about " +:+
  dq +:+
  subject +:+
  dq +:+
  " and will get back to you as soon as possible.</p>
                    <p>In the meantime, feel free to connect with me on:</p>
                    <ul>
                        <li><a href=" +:+
  dq +:+
  "https://www.linkedin.com/in/sujal-javeri-b50638282" +:+
  dq +:+
  " style=" +:+
  dq +:+
  "color: #667eea;" +:+
  dq +:+
  ">LinkedIn</a></li>
                        <li><a href=" +:+
  dq +:+
  "https://instagram.com/sujal_javeri" +:+
  dq +:+
  " style=" +:+
  dq +:+
  "color: #667eea;" +:+
  dq +:+
  ">Instagram</a></li>
                    </ul>
                    <p>Best regards,<br>Sujal Javeri</p>
                    <div style=" +:+
  dq +:+
  "margin-top: 30px; padding: 20px; background: #f8f9fa; border-radius: 10px;" +:+
  dq +:+
  ">
                        <h3 style=" +:+
  dq +:+
  "color: #333;" +:+
  dq +:+
  ">Your Message:</h3>
                        <p style=" +:+
  dq +:+
  "font-style: italic;" +:+
  dq +:+
  ">" +:+
  dq +:+
  message +:+
  dq +:+
  "</p>
                    </div>
                </div>
            ".

(** [s.split(sep)] for a separator of one code unit *)
Fixpoint split (sep : ascii) (s : string) : list string :=
  match s with
  | EmptyString => [EmptyString]
  | String c s' =>
      if Ascii.eqb c sep then EmptyString :: split sep s'
      else match split sep s' with
           | x :: xs => String c x :: xs
           | [] => [String c EmptyString]
           end
  end.

(** [const emailRegex = /^[^\s@]+@[^\s@]+\.[^\s@]+$/] *)
Definition not_space_at (c : ascii) : bool :=
  negb (JS.is_space c) && negb (Ascii.eqb c "@").

Definition emailRegex : JS.regex :=
  JS.RSeq (JS.RPlus (JS.RClass not_space_at))
    (JS.RSeq (JS.RChar "@")
       (JS.RSeq (JS.RPlus (JS.RClass not_space_at))
          (JS.RSeq (JS.RChar ".")
             (JS.RPlus (JS.RClass not_space_at))))).

(** The options that the source passes to [rateLimit], and the counting of
    the limiter. *)
Module RateLimit.
Record options : Type := { windowMs : Z; max : nat; message : string }.

(** Modelled from the spec: the counting of the limiter that
    [rateLimit(options)] builds.  The library express-rate-limit is not
    among the sources; the specification has a limiter that caps the
    requests of one address over a window of [windowMs].  [hit] gives the
    count of an address after one more hit at time [t], and the end of the
    window that the count belongs to: a hit inside the window of the entry
    adds to its count, a hit without an entry, or past the end of its
    window, opens a window of [windowMs] with a count of 1. *)
Definition hit (o : options) (t : Z) (old : option (nat * Z)) : nat * Z :=
  match old with
  | Some (n, reset) =>
      if (t <? reset)%Z then (S n, reset) else (1, (t + windowMs o)%Z)
  | None => (1, (t + windowMs o)%Z)
  end.
End RateLimit.

Definition contactLimiter_options : RateLimit.options :=
  {| RateLimit.windowMs := 60 * 60 * 1000;
     RateLimit.max := 5;
     RateLimit.message :=
       "Too many contact form submissions, please try again later." |}.

(** ** The handlers *)

Section Server.

Variable E : env.

(** One operation on the outside world.  It is appended to the trace, and
    throws when the oracle says that it fails. *)
Definition io (e : effect) : M unit :=
  fun w =>
    let ok := negb (fault E (length (trace w))) in
    let w' := with_trace (trace w ++ [{| eff := e; succeeded := ok |}]) w in
    if ok then (Ok tt, w') else (Throw, w').

(** [new Date()], [Date.now()] *)
Definition now : M Z :=
  fun w => (Ok (clock E (ticks w)), with_ticks (S (ticks w)) w).

Definition fresh_id : M nat :=
  fun w => (Ok (next_id w), with_next_id (S (next_id w)) w).

(** [v.trim()]: a TypeError for a value that is not a string. *)
Definition method_trim (v : JS.jsval) : M string :=
  match v with
  | JS.JStr s => ret (JS.trim s)
  | _ => throw
  end.

(** [String(v)] inside a template literal or a [test]. *)
Definition to_string (v : JS.jsval) : M string :=
  match JS.ToString v with
  | Some s => ret s
  | None => throw
  end.

(** *** The rate limiter of the contact route *)

(** Modelled from the spec: the middleware that [rateLimit(options)] builds
    (express-rate-limit is not among the sources).  It counts the hit of
    the address of the request, and answers a request beyond [max] in the
    window with TooManyRequests (429) and the fixed message, without
    calling [next()]. *)
Definition rateLimit (o : RateLimit.options) (req : request) : M flow :=
  let! t := now in
  let! h := get contactHits in
  let entry := RateLimit.hit o t (h !! ip req) in
  run! modify (with_contactHits (<[ip req := entry]> h)) in
  if (RateLimit.max o <? fst entry)%nat
  then ret (Respond {| code := 429; content := Text (RateLimit.message o) |})
  else ret Next.

Definition contactLimiter : request -> M flow := rateLimit contactLimiter_options.

(** *** The visitor tracker *)

(** [Visitor.findOne({ ipAddress })]: the first document with that address,
    and its place in the collection. *)
Definition Visitor_findOne (ipAddress : option string)
  : M (option (nat * Visitor.doc)) :=
  run! io (DbRead Visitors) in
  let! vs := get visitors in
  ret (list_find (fun v => Visitor.ipAddress v = ipAddress) vs).

(** [visitor.save()] for a document that [findOne] returned from place [i] *)
Definition Visitor_update (i : nat) (v : Visitor.doc) : M unit :=
  if Visitor.validate v
  then run! io (DbWrite Visitors) in
       modify (fun w => with_visitors (<[i := v]> (visitors w)) w)
  else throw.

(** [visitor.save()] for a document made by [new Visitor] *)
Definition Visitor_insert (v : Visitor.doc) : M unit :=
  if Visitor.validate v
  then run! io (DbWrite Visitors) in
       modify (fun w => with_visitors (visitors w ++ [v]) w)
  else throw.

(** [req.ip || req.connection.remoteAddress] *)
Definition address_of (req : request) : option string :=
  if JS.is_empty (ip req) then remoteAddress req else Some (ip req).

Definition trackVisitor (req : request) : M flow :=
  try_catch
    (let ipAddress := address_of req in
     let userAgent := userAgentHeader req in
     let referrer := referrerHeader req in
     let! found := Visitor_findOne ipAddress in
     match found with
     | Some (i, visitor) =>
         let! last := now in
         let! stamp := now in
         run! Visitor_update i
           {| Visitor._id := Visitor._id visitor;
              Visitor.ipAddress := Visitor.ipAddress visitor;
              Visitor.userAgent := Visitor.userAgent visitor;
              Visitor.referrer := Visitor.referrer visitor;
              Visitor.visitedPages :=
                Visitor.visitedPages visitor ++
                [{| Visitor.page := originalUrl req; Visitor.timestamp := stamp |}];
              Visitor.isReturningVisitor := true;
              Visitor.createdAt := Visitor.createdAt visitor;
              Visitor.lastVisit := last |} in
         ret Next
     | None =>
         let! stamp := now in
         let! id := fresh_id in
         let! created := now in
         let! last := now in
         run! Visitor_insert
           {| Visitor._id := id;
              Visitor.ipAddress := ipAddress;
              Visitor.userAgent := userAgent;
              Visitor.referrer := referrer;
              Visitor.visitedPages :=
                [{| Visitor.page := originalUrl req; Visitor.timestamp := stamp |}];
              Visitor.isReturningVisitor := false;
              Visitor.createdAt := created;
              Visitor.lastVisit := last |} in
         ret Next
     end)
    (ret Next).

(** *** The contact form *)

(** [new Contact({ ... })]: the setters of the schema ([trim], [lowercase])
    and its defaults ([status], [createdAt]). *)
Definition Contact_new (name email subject message : string)
    (ipAddress userAgent : option string) : M Contact.doc :=
  let! id := fresh_id in
  let! created := now in
  ret {| Contact._id := id;
         Contact.name := JS.trim name;
         Contact.email := JS.trim (JS.toLowerCase email);
         Contact.subject := JS.trim subject;
         Contact.message := JS.trim message;
         Contact.ipAddress := ipAddress;
         Contact.userAgent := userAgent;
         Contact.status := "new";
         Contact.createdAt := created;
         Contact.readAt := None;
         Contact.repliedAt := None |}.

(** [contact.save()]: validation, then the write. *)
Definition Contact_save (d : Contact.doc) : M unit :=
  if Contact.validate d
  then run! io (DbWrite Contacts) in
       modify (fun w => with_contacts (contacts w ++ [d]) w)
  else throw.

(** [transporter.sendMail(m)] *)
Definition sendMail (m : Mail.options) : M unit :=
  run! io (SendMail m) in
  modify (fun w => with_outbox (outbox w ++ [m]) w).

Definition mailOptions (req : request) (name email subject message ts : string)
  : Mail.options :=
  {| Mail.from := EMAIL_USER E;
     Mail.to := "sujal309206@gmail.com";
     Mail.subject := "Portfolio Contact: " +:+ subject;
     Mail.html :=
       alert_html name email subject message (ip req)
         (interp (userAgentHeader req)) ts |}.

Definition autoReplyOptions (name email subject message : string) : Mail.options :=
  {| Mail.from := EMAIL_USER E;
     Mail.to := email;
     Mail.subject := "Thank you for contacting Sujal Javeri";
     Mail.html := reply_html name subject message |}.

Definition contact_handler (req : request) : M response :=
  try_catch
    (let name := field "name" req in
     let email := field "email" req in
     let subject := field "subject" req in
     let message := field "message" req in
     if negb (JS.truthy name) || negb (JS.truthy email) ||
        negb (JS.truthy subject) || negb (JS.truthy message)
     then ret (json 400 "All fields are required")
     else
       let! tested := to_string email in
       if negb (JS.test emailRegex tested)
       then ret (json 400 "Invalid email format")
       else
         let! name' := method_trim name in
         let! email' := method_trim email in
         let! subject' := method_trim subject in
         let! message' := method_trim message in
         let! contact := Contact_new name' (JS.toLowerCase email') subject' message'
                      (Some (ip req)) (userAgentHeader req) in
         run! Contact_save contact in
         let! n := to_string name in
         let! e := to_string email in
         let! s := to_string subject in
         let! m := to_string message in
         let! t := now in
         let alert := mailOptions req n e s m (toLocaleString E t) in
         let reply := autoReplyOptions n e s m in
         run! sendMail alert in
         run! sendMail reply in
         ret (json 200
           "Message sent successfully! You will receive a confirmation email shortly."))
    (ret (json 500 "Failed to send message. Please try again later.")).

(** *** A blog post by its slug *)

Definition Blog_findOne (slug : string) : M (option (nat * Blog.doc)) :=
  run! io (DbRead Blogs) in
  let! bs := get blogs in
  ret (list_find (fun b => Blog.slug b = slug) bs).

(** [blog.save()] for a document that [findOne] returned from place [i]:
    validation, then the write. *)
Definition Blog_update (i : nat) (b : Blog.doc) : M unit :=
  if Blog.validate b
  then run! io (DbWrite Blogs) in
       modify (fun w => with_blogs (<[i := b]> (blogs w)) w)
  else throw.

Definition blog_handler (req : request) : M response :=
  try_catch
    (let! found := Blog_findOne (param req) in
     match found with
     | None => ret (json 404 "Blog post not found")
     | Some (i, blog) =>
         let blog := Blog.set_views (add_numbers (Blog.views blog) 1) blog in
         run! Blog_update i blog in
         ret {| code := 200; content := BlogJson blog |}
     end)
    (ret (json 500 "Failed to fetch blog post")).

(** *** Authentication and the administration of contacts *)

Definition authenticateToken (req : request) : M flow :=
  let token :=
    match authorization req with
    | Some authHeader =>
        if JS.is_empty authHeader then Some authHeader
        else split " " authHeader !! 1%nat
    | None => None
    end in
  match token with
  | None => ret (Respond (json 401 "Access token required"))
  | Some tok =>
      if JS.is_empty tok
      then ret (Respond (json 401 "Access token required"))
      else if jwt_verify E tok then ret Next
      else ret (Respond (json 403 "Invalid token"))
  end.

(** The value that an update stores in [status]: a string as it is, any
    other value as the cast to String makes it; [None] for a key that is
    [undefined], which is left out of the update.  The stored status of
    the model is a string: a value that the cast leaves [null] has no
    place in it, and the statements below are about string statuses. *)
Definition cast_status (v : JS.jsval) : M (option string) :=
  match v with
  | JS.JUndefined => ret None
  | JS.JStr s => ret (Some s)
  | JS.JOther t i =>
      match castString E t i with
      | Some s => ret (Some s)
      | None => throw
      end
  end.

Definition apply_opt {A B} (f : A -> B -> B) (o : option A) (b : B) : B :=
  match o with
  | Some a => f a b
  | None => b
  end.

(** [Contact.findByIdAndUpdate(id, { status, readAt, repliedAt }, { new: true })]:
    the update runs no validators, the option [runValidators] not being set. *)
Definition Contact_findByIdAndUpdate (id : string) (status : JS.jsval)
    (readAt repliedAt : option Z) : M (option Contact.doc) :=
  match castObjectId E id with
  | None => throw
  | Some k =>
      let! status' := cast_status status in
      run! io (DbWrite Contacts) in
      let! cs := get contacts in
      match list_find (fun c => Contact._id c = k) cs with
      | None => ret None
      | Some (i, c) =>
          let c' :=
            apply_opt Contact.set_repliedAt repliedAt
              (apply_opt Contact.set_readAt readAt
                 (apply_opt Contact.set_status status' c)) in
          run! modify (with_contacts (<[i := c']> cs)) in
          ret (Some c')
      end
  end.

(** [status === k ? new Date() : undefined] *)
Definition date_if_status (k : string) (status : JS.jsval) : M (option Z) :=
  match status with
  | JS.JStr s => if String.eqb s k then (let! t := now in ret (Some t)) else ret None
  | _ => ret None
  end.

Definition patch_handler (req : request) : M response :=
  try_catch
    (let status := field "status" req in
     let! readAt := date_if_status "read" status in
     let! repliedAt := date_if_status "replied" status in
     let! contact := Contact_findByIdAndUpdate (param req) status readAt repliedAt in
     match contact with
     | None => ret (json 404 "Contact not found")
     | Some c =>
         ret {| code := 200;
                content := ContactJson "Contact updated successfully" c |}
     end)
    (ret (json 500 "Failed to update contact")).

(** *** Routes: the middlewares in the order of registration, then the handler *)

Fixpoint route (mws : list (request -> M flow)) (h : request -> M response)
    (req : request) : M response :=
  match mws with
  | [] => h req
  | mw :: rest =>
      let! f := mw req in
      match f with
      | Next => route rest h req
      | Respond r => ret r
      end
  end.

(** [app.post('/api/contact', contactLimiter, trackVisitor, ...)] *)
Definition post_contact : request -> M response :=
  route [contactLimiter; trackVisitor] contact_handler.

(** [app.get('/api/blog/:slug', trackVisitor, ...)] *)
Definition get_blog_slug : request -> M response :=
  route [trackVisitor] blog_handler.

(** [app.patch('/api/admin/contacts/:id', authenticateToken, ...)] *)
Definition patch_admin_contact : request -> M response :=
  route [authenticateToken] patch_handler.

End Server.

(** ** What the specification says of an accepted address

    The pattern [local@domain.tld] in the words of the specification: three
    parts that are not empty and hold neither white space nor [@], the
    first two separated by [@] and the last two by a dot. *)
Definition email_part (p : string) : Prop :=
  p <> EmptyString /\ JS.forallb_str not_space_at p = true.

Definition basic_local_domain_tld (s : string) : Prop :=
  exists local domain tld : string,
    s = local +:+ "@" +:+ domain +:+ "." +:+ tld /\
    email_part local /\ email_part domain /\ email_part tld.

(** ** Vocabulary of the statements *)

(** The two checks of the contact handler let the request through: the four
    fields are truthy, and the expression matches the email. *)
Definition passes_validation (req : request) : Prop :=
  JS.truthy (field "name" req) = true /\
  JS.truthy (field "email" req) = true /\
  JS.truthy (field "subject" req) = true /\
  JS.truthy (field "message" req) = true /\
  exists e, JS.ToString (field "email" req) = Some e /\
            JS.test emailRegex e = true.

(** One of the four fields is absent from the body. *)
Definition missing_field (req : request) : Prop :=
  field "name" req = JS.JUndefined \/ field "email" req = JS.JUndefined \/
  field "subject" req = JS.JUndefined \/ field "message" req = JS.JUndefined.

(** The events that a run from [w] to [w'] added to the trace. *)
Definition new_events (w w' : world) : list event :=
  drop (length (trace w)) (trace w').

Definition is_write (ev : event) : Prop :=
  exists c, eff ev = DbWrite c.

Definition is_send (ev : event) : Prop :=
  exists m, eff ev = SendMail m.





(** The answer of the limiter of the contact form, and the other fixed
    answers. *)
Definition too_many_contacts : response :=
  {| code := 429;
     content := Text "Too many contact form submissions, please try again later." |}.

Definition all_fields_required : response := json 400 "All fields are required".
Definition invalid_email : response := json 400 "Invalid email format".
Definition try_again_later : response :=
  json 500 "Failed to send message. Please try again later.".
Definition message_sent : response :=
  json 200 "Message sent successfully! You will receive a confirmation email shortly.".

(** [a] occurs in [b]. *)
Definition occurs_in (a b : string) : Prop :=
  exists pre post : string, b = pre +:+ a +:+ post.

(** The four fields of the body are strings. *)
Definition is_str (v : JS.jsval) : bool :=
  match v with
  | JS.JStr _ => true
  | _ => false
  end.

Definition string_fields (req : request) : bool :=
  is_str (field "name" req) && is_str (field "email" req) &&
  is_str (field "subject" req) && is_str (field "message" req).

(** The document that the contact handler builds, in the world [w], from
    the strings [n], [e], [s] and [m] of the body: the handler trims them
    and lowers the email, and the setters of the schema do it once more. *)
Definition contact_of (E : env) (req : request) (w : world) (n e s m : string)
  : Contact.doc :=
  {| Contact._id := next_id w;
     Contact.name := JS.trim (JS.trim n);
     Contact.email := JS.trim (JS.toLowerCase (JS.toLowerCase (JS.trim e)));
     Contact.subject := JS.trim (JS.trim s);
     Contact.message := JS.trim (JS.trim m);
     Contact.ipAddress := Some (ip req);
     Contact.userAgent := userAgentHeader req;
     Contact.status := "new";
     Contact.createdAt := clock E (ticks w);
     Contact.readAt := None;
     Contact.repliedAt := None |}.

(** The two mails of the handler for those strings. *)
Definition alert_of (E : env) (req : request) (w : world) (n e s m : string)
  : Mail.options :=
  mailOptions E req n e s m (toLocaleString E (clock E (S (ticks w)))).

Definition reply_of (E : env) (n e s m : string) : Mail.options :=
  autoReplyOptions E n e s m.

(** The [k]-th operation after those of the trace of [w] succeeds. *)
Definition works (E : env) (w : world) (k : nat) : bool :=
  negb (fault E (k + length (trace w))).

(** ** Concrete worlds and requests *)

(** An environment in which nothing fails. *)
Definition env0 : env :=
  {| fault := fun _ => false;
     clock := fun n => (1000 * Z.of_nat n)%Z;
     EMAIL_USER := Some "owner@example.com";
     toLocaleString := fun _ => "1/1/2025, 12:00:00 PM";
     jwt_verify := fun t => String.eqb t "good-token";
     castObjectId := fun s => if String.eqb s "c7" then Some 7 else None;
     castString := fun _ i => i |}.

(** The same, but the [k]-th operation on the outside world fails. *)
Definition env_fail (k : nat) : env :=
  {| fault := Nat.eqb k;
     clock := clock env0;
     EMAIL_USER := EMAIL_USER env0;
     toLocaleString := toLocaleString env0;
     jwt_verify := jwt_verify env0;
     castObjectId := castObjectId env0;
     castString := castString env0 |}.


Definition world0 : world :=
  {| contacts := []; visitors := []; blogs := []; outbox := [];
     contactHits := ∅; ticks := 0; next_id := 0; trace := [] |}.

Definition form (name email subject message : JS.jsval) : gmap string JS.jsval :=
  <["name" := name]> (<["email" := email]>
    (<["subject" := subject]> (<["message" := message]> ∅))).

Definition post (b : gmap string JS.jsval) : request :=
  {| ip := "203.0.113.9"; remoteAddress := None; originalUrl := "/api/contact";
     userAgentHeader := Some "curl/8.0"; referrerHeader := None;
     authorization := None; param := EmptyString; body := b |}.

(** The example of the specification. *)
Definition req_example : request :=
  post (form (JS.JStr "A") (JS.JStr "a@b.com") (JS.JStr "Hi") (JS.JStr "Test")).

(** A submission without a name. *)
Definition req_no_name : request :=
  post (<["email" := JS.JStr "a@b.com"]>
         (<["subject" := JS.JStr "Hi"]> (<["message" := JS.JStr "Test"]> ∅))).

(** A submission whose name is one space. *)
Definition req_blank_name : request :=
  post (form (JS.JStr " ") (JS.JStr "a@b.com") (JS.JStr "Hi") (JS.JStr "Test")).

(** A submission with white space around the name and capitals in the email. *)
Definition req_raw : request :=
  post (form (JS.JStr " Ann ") (JS.JStr "Ann@B.Com") (JS.JStr "Hi ") (JS.JStr " Test")).

(** A submission whose email has no [@]. *)
Definition req_no_at : request :=
  post (form (JS.JStr "A") (JS.JStr "a.b.com") (JS.JStr "Hi") (JS.JStr "Test")).

Definition visitor_seen : Visitor.doc :=
  {| Visitor._id := 3; Visitor.ipAddress := Some "203.0.113.9";
     Visitor.userAgent := Some "curl/8.0"; Visitor.referrer := None;
     Visitor.visitedPages := [{| Visitor.page := "/api/blog"; Visitor.timestamp := 5 |}];
     Visitor.isReturningVisitor := false;
     Visitor.createdAt := 5; Visitor.lastVisit := 5 |}.

Definition world_seen : world := with_visitors [visitor_seen] world0.

Definition blog_hello : Blog.doc :=
  {| Blog._id := 1; Blog.title := "Hello"; Blog.slug := "hello";
     Blog.content := "First post"; Blog.published := true;
     Blog.views := 41; Blog.likes := 0 |}.

Definition world_blog : world := with_blogs [blog_hello] world0.

Definition get_slug (slug : string) : request :=
  {| ip := "203.0.113.9"; remoteAddress := None;
     originalUrl := "/api/blog/" +:+ slug;
     userAgentHeader := None; referrerHeader := None;
     authorization := None; param := slug; body := ∅ |}.

Definition contact_new : Contact.doc :=
  {| Contact._id := 7; Contact.name := "A"; Contact.email := "a@b.com";
     Contact.subject := "Hi"; Contact.message := "Test";
     Contact.ipAddress := Some "203.0.113.9"; Contact.userAgent := None;
     Contact.status := "new"; Contact.createdAt := 5;
     Contact.readAt := None; Contact.repliedAt := None |}.

Definition world_contact : world := with_contacts [contact_new] world0.

(** An administrator, holding a token that verifies, sets a status that the
    schema does not list. *)
Definition req_patch_bogus : request :=
  {| ip := "203.0.113.9"; remoteAddress := None;
     originalUrl := "/api/admin/contacts/c7";
     userAgentHeader := None; referrerHeader := None;
     authorization := Some "Bearer good-token"; param := "c7";
     body := <["status" := JS.JStr "bogus"]> ∅ |}.

(** ** File uploads and the error middleware *)

(** A word as a regular expression. *)
Fixpoint RLit (s : string) : JS.regex :=
  match s with
  | EmptyString => JS.REps
  | String c s' => JS.RSeq (JS.RChar c) (RLit s')
  end.

Definition any_char : JS.regex := JS.RClass (fun _ => true).

(** [r.test(s)] for an expression without anchors: some part of [s] is a
    word of [r]. *)
Definition search (r : JS.regex) (s : string) : bool :=
  JS.test (JS.RSeq (JS.RStar any_char) (JS.RSeq r (JS.RStar any_char))) s.

(** [const allowedTypes = /jpeg|jpg|png|gif|webp/] *)
Definition allowedTypes : JS.regex :=
  JS.RAlt (RLit "jpeg")
    (JS.RAlt (RLit "jpg")
       (JS.RAlt (RLit "png") (JS.RAlt (RLit "gif") (RLit "webp")))).

Definition allowed_words : list string := ["jpeg"; "jpg"; "png"; "gif"; "webp"].

(** The file that multer hands to [fileFilter]. *)
Record file : Type := {
  fieldname : string;
  originalname : string;
  mimetype : string
}.

(** What a middleware passes to [next(error)]: a [multer.MulterError] with
    its code, or another [Error] with its message. *)
Inductive error : Type :=
| MulterError (code : string)
| OtherError (message : string).

(** [fileFilter]: the argument of [cb], [inr true] for [cb(null, true)] and
    [inl e] for [cb(e)].  [path.extname] is a parameter. *)
Definition fileFilter (extname : string -> string) (f : file) : error + bool :=
  let extname' := search allowedTypes (JS.toLowerCase (extname (originalname f))) in
  let mimetype' := search allowedTypes (mimetype f) in
  if mimetype' && extname' then inr true
  else inl (OtherError "Only image files are allowed!").

(** The error handling middleware, [app.use((error, req, res, next) => ...)]. *)
Definition error_handler (e : error) : response :=
  match e with
  | MulterError c =>
      if String.eqb c "LIMIT_FILE_SIZE"
      then json 400 "File too large. Maximum size is 5MB."
      else json 500 "Internal server error"
  | OtherError _ => json 500 "Internal server error"
  end.

(** ** Runs of several requests *)

(** The world after the requests went, one after the other, through [h]. *)
Fixpoint run_each {A : Type} (h : request -> M A) (reqs : list request)
    (w : world) : world :=
  match reqs with
  | [] => w
  | req :: rest => run_each h rest (snd (h req w))
  end.

(** Every stored submission has a status of the schema's list. *)
Definition statuses_listed (cs : list Contact.doc) : Prop :=
  Forall (fun c => In (Contact.status c) Contact.status_enum) cs.

(** The word after the first space of the authorization header, which the
    gate takes for the token. *)
Definition second_word (h : string) : option string := split " " h !! 1%nat.

(** ** More concrete requests *)

(** A submission whose name is the number 5. *)
Definition req_number_name : request :=
  post (form (JS.JOther true (Some "5")) (JS.JStr "a@b.com") (JS.JStr "Hi")
          (JS.JStr "Test")).

(** A submission with a space before the email. *)
Definition req_spaced_email : request :=
  post (form (JS.JStr "A") (JS.JStr " a@b.com") (JS.JStr "Hi") (JS.JStr "Test")).

(** A request that no address comes with. *)
Definition req_no_address : request :=
  {| ip := EmptyString; remoteAddress := None; originalUrl := "/api/blog";
     userAgentHeader := None; referrerHeader := None;
     authorization := None; param := EmptyString; body := ∅ |}.

Definition patch (auth : option string) (id : string) (status : JS.jsval) : request :=
  {| ip := "203.0.113.9"; remoteAddress := None;
     originalUrl := "/api/admin/contacts/" +:+ id;
     userAgentHeader := None; referrerHeader := None;
     authorization := auth; param := id;
     body := <["status" := status]> ∅ |}.


(** A post whose counter has reached 2^53. *)
Definition blog_full : Blog.doc :=
  {| Blog._id := 2; Blog.title := "Popular"; Blog.slug := "popular";
     Blog.content := "Read by all"; Blog.published := true;
     Blog.views := 2 ^ 53; Blog.likes := 0 |}.

Definition world_blog_full : world := with_blogs [blog_full] world0.

(** * Properties *)

(** ** Regular expressions: matching by derivatives finds the words *)

Lemma append_nil_l (s : string) : EmptyString +:+ s = s.
Proof. reflexivity. Qed.

Lemma append_cons_l (c : ascii) (s t : string) :
  String c s +:+ t = String c (s +:+ t).
Proof. reflexivity. Qed.

Lemma append_empty_inv (s1 s2 : string) :
  s1 +:+ s2 = EmptyString -> s1 = EmptyString /\ s2 = EmptyString.
Proof.
  destruct s1; [rewrite append_nil_l; tauto | rewrite append_cons_l; discriminate].
Qed.

Lemma append_cons_inv (s1 s2 s : string) (c : ascii) :
  s1 +:+ s2 = String c s ->
  (s1 = EmptyString /\ s2 = String c s) \/
  (exists s1', s1 = String c s1' /\ s = s1' +:+ s2).
Proof.
  destruct s1 as [|d s1']; intros H.
  - left; split; [reflexivity | assumption].
  - right. rewrite append_cons_l in H. injection H as -> <-.
    exists s1'. split; reflexivity.
Qed.

Lemma append_empty_r (s : string) : s +:+ EmptyString = s.
Proof.
  induction s as [|c s IH]; [reflexivity | now rewrite append_cons_l, IH].
Qed.

Lemma append_assoc (a b c : string) : (a +:+ b) +:+ c = a +:+ b +:+ c.
Proof.
  induction a as [|x a IH]; [reflexivity | now rewrite !append_cons_l, IH].
Qed.

Lemma nullable_lang (r : JS.regex) :
  JS.nullable r = true -> JS.lang r EmptyString.
Proof.
  induction r as [| |p|r1 IH1 r2 IH2|r1 IH1 r2 IH2|r IH]; simpl; intros H;
    try discriminate.
  - constructor.
  - apply andb_true_iff in H as [H1 H2].
    change EmptyString with (EmptyString +:+ EmptyString).
    constructor; auto.
  - apply orb_true_iff in H as [H|H];
      [apply JS.lang_alt_l | apply JS.lang_alt_r]; auto.
  - constructor.
Qed.

Lemma lang_nullable (r : JS.regex) (s : string) :
  JS.lang r s -> s = EmptyString -> JS.nullable r = true.
Proof.
  induction 1 as [|p c Hp|r1 r2 s1 s2 _ IH1 _ IH2|r1 r2 s _ IH|r1 r2 s _ IH
                 |r|r s1 s2 _ _ _ _]; simpl; intros Hs; try reflexivity.
  - discriminate.
  - apply append_empty_inv in Hs as [-> ->]. now rewrite IH1, IH2.
  - now rewrite IH.
  - rewrite IH by assumption. apply orb_true_r.
Qed.

Lemma deriv_sound (c : ascii) (r : JS.regex) :
  forall s, JS.lang (JS.deriv c r) s -> JS.lang r (String c s).
Proof.
  induction r as [| |p|r1 IH1 r2 IH2|r1 IH1 r2 IH2|r IH]; simpl; intros s H.
  - inversion H.
  - inversion H.
  - destruct (p c) eqn:Hp; inversion H; subst. now constructor.
  - assert (Hseq : forall t, JS.lang (JS.RSeq (JS.deriv c r1) r2) t ->
                             JS.lang (JS.RSeq r1 r2) (String c t)).
    { intros t Ht. inversion Ht; subst.
      change (String c (s1 +:+ s2)) with (String c s1 +:+ s2).
      constructor; auto. }
    destruct (JS.nullable r1) eqn:Hn; [| now apply Hseq].
    inversion H; subst; [now apply Hseq |].
    change (String c s) with (EmptyString +:+ String c s).
    constructor; [now apply nullable_lang | auto].
  - inversion H; subst;
      [apply JS.lang_alt_l | apply JS.lang_alt_r]; auto.
  - inversion H; subst.
    change (String c (s1 +:+ s2)) with (String c s1 +:+ s2).
    constructor; auto.
Qed.

Lemma deriv_complete (c : ascii) (r : JS.regex) (s0 : string) :
  JS.lang r s0 -> forall s, s0 = String c s -> JS.lang (JS.deriv c r) s.
Proof.
  induction 1 as [|p d Hp|r1 r2 s1 s2 H1 IH1 H2 IH2|r1 r2 s0 _ IH|r1 r2 s0 _ IH
                 |r|r s1 s2 H1 IH1 H2 IH2]; simpl; intros s Hs.
  - discriminate.
  - injection Hs as -> <-. rewrite Hp. constructor.
  - apply append_cons_inv in Hs as [[-> ->] | (s1' & -> & ->)].
    + rewrite (lang_nullable _ _ H1 eq_refl).
      apply JS.lang_alt_r. now apply IH2.
    + assert (Hd : JS.lang (JS.RSeq (JS.deriv c r1) r2) (s1' +:+ s2))
        by (constructor; auto).
      destruct (JS.nullable r1); [now apply JS.lang_alt_l | assumption].
  - apply JS.lang_alt_l. auto.
  - apply JS.lang_alt_r. auto.
  - discriminate.
  - apply append_cons_inv in Hs as [[-> ->] | (s1' & -> & ->)].
    + now apply IH2.
    + constructor; auto.
Qed.

Lemma test_lang (r : JS.regex) (s : string) :
  JS.test r s = true <-> JS.lang r s.
Proof.
  revert r. induction s as [|c s IH]; intros r; simpl.
  - split; [apply nullable_lang | intros H; now apply (lang_nullable r EmptyString)].
  - rewrite IH. split; [apply deriv_sound | intros H; now apply (deriv_complete c r _ H)].
Qed.

(** ** The expression of the contact form and the pattern of the specification *)

Lemma star_class_forall (p : ascii -> bool) (r : JS.regex) (s : string) :
  JS.lang r s -> r = JS.RStar (JS.RClass p) -> JS.forallb_str p s = true.
Proof.
  induction 1 as [| | | | | |r s1 s2 H1 _ _ IH2]; intros Hr; try discriminate.
  - reflexivity.
  - injection Hr as ->. inversion H1 as [|q c Hc| | | | |]; subst.
    rewrite append_cons_l, append_nil_l. simpl.
    rewrite IH2 by reflexivity. now rewrite Hc.
Qed.

Lemma forall_star_class (p : ascii -> bool) (s : string) :
  JS.forallb_str p s = true -> JS.lang (JS.RStar (JS.RClass p)) s.
Proof.
  induction s as [|c s IH]; simpl; intros H; [constructor |].
  apply andb_true_iff in H as [Hc Hs].
  change (String c s) with (String c EmptyString +:+ s).
  constructor; [now constructor | auto].
Qed.

Lemma plus_class (p : ascii -> bool) (s : string) :
  JS.lang (JS.RPlus (JS.RClass p)) s <->
  s <> EmptyString /\ JS.forallb_str p s = true.
Proof.
  unfold JS.RPlus. split.
  - intros H. inversion H as [| |r1 r2 s1 s2 H1 H2| | | |]; subst.
    inversion H1 as [|q c Hc| | | | |]; subst.
    rewrite append_cons_l, append_nil_l.
    split; [discriminate |]. simpl.
    rewrite (star_class_forall p _ _ H2 eq_refl). now rewrite Hc.
  - intros [Hne H]. destruct s as [|c s]; [congruence |].
    simpl in H. apply andb_true_iff in H as [Hc Hs].
    change (String c s) with (String c EmptyString +:+ s).
    constructor; [now constructor | now apply forall_star_class].
Qed.

Lemma lang_char (c : ascii) (s : string) :
  JS.lang (JS.RChar c) s <-> s = String c EmptyString.
Proof.
  unfold JS.RChar. split.
  - intros H. inversion H as [|q d Hd| | | | |]; subst.
    apply Ascii.eqb_eq in Hd. now subst.
  - intros ->. constructor. apply Ascii.eqb_refl.
Qed.

Lemma emailRegex_lang (s : string) :
  JS.lang emailRegex s <-> basic_local_domain_tld s.
Proof.
  unfold emailRegex, basic_local_domain_tld, email_part. split.
  - intros H.
    inversion H as [| |? ? l s1 Hl H1| | | |]; subst.
    inversion H1 as [| |? ? a s2 Ha H2| | | |]; subst.
    inversion H2 as [| |? ? d s3 Hd H3| | | |]; subst.
    inversion H3 as [| |? ? b t Hb Ht| | | |]; subst.
    apply lang_char in Ha, Hb. subst a b.
    apply plus_class in Hl, Hd, Ht.
    exists l, d, t. auto.
  - intros (l & d & t & -> & Hl & Hd & Ht).
    apply plus_class in Hl, Hd, Ht.
    repeat (constructor; try assumption); now apply lang_char.
Qed.

Lemma emailRegex_test (s : string) :
  JS.test emailRegex s = true <-> basic_local_domain_tld s.
Proof. rewrite test_lang. apply emailRegex_lang. Qed.

Lemma includes_append (c : ascii) (a b : string) :
  JS.includes c (a +:+ b) = JS.includes c a || JS.includes c b.
Proof.
  induction a as [|x a IH]; [reflexivity |].
  rewrite append_cons_l. simpl. rewrite IH. apply orb_assoc.
Qed.

Lemma not_space_at_no_at (x : string) :
  JS.forallb_str not_space_at x = true -> JS.includes "@" x = false.
Proof.
  induction x as [|c x IH]; [reflexivity |].
  cbn [JS.forallb_str JS.includes]. intros H.
  apply andb_true_iff in H as [Hc Hx].
  unfold not_space_at in Hc. apply andb_true_iff in Hc as [_ Hc].
  apply negb_true_iff in Hc. rewrite Ascii.eqb_sym, Hc. auto.
Qed.

(** A string with a single [@] splits at it in one way only. *)
Lemma split_at_unique (l d l' r : string) :
  JS.includes "@" l' = false -> JS.includes "@" r = false ->
  l +:+ "@" +:+ d = l' +:+ "@" +:+ r -> d = r.
Proof.
  revert l'. induction l as [|c l IH]; intros [|c' l'] Hl Hr Heq.
  - rewrite !append_nil_l in Heq. now injection Heq.
  - rewrite append_nil_l, !append_cons_l in Heq. injection Heq as <- _.
    cbn in Hl. discriminate.
  - rewrite append_nil_l, !append_cons_l in Heq. injection Heq as -> Heq.
    rewrite !append_nil_l in Heq. subst r.
    rewrite includes_append in Hr. cbn in Hr.
    rewrite orb_true_r in Hr. discriminate.
  - rewrite !append_cons_l in Heq. injection Heq as -> Heq.
    cbn [JS.includes] in Hl. apply orb_false_iff in Hl as [_ Hl].
    now apply (IH l').
Qed.

Lemma basic_includes_at (s : string) :
  basic_local_domain_tld s -> JS.includes "@" s = true.
Proof.
  intros (l & d & t & -> & _). rewrite includes_append.
  rewrite append_cons_l. simpl. apply orb_true_r.
Qed.

Lemma basic_domain_dot (s l d : string) :
  basic_local_domain_tld s -> s = l +:+ "@" +:+ d -> JS.includes "." d = true.
Proof.
  intros (l' & d' & t' & -> & [_ Hl] & [_ Hd] & [_ Ht]) Heq.
  apply not_space_at_no_at in Hl, Hd, Ht.
  assert (Hr : JS.includes "@" (d' +:+ "." +:+ t') = false).
  { rewrite includes_append, append_cons_l, append_nil_l. cbn.
    now rewrite Hd, Ht. }
  symmetry in Heq. apply split_at_unique in Heq; [| assumption | assumption].
  subst d. rewrite includes_append, append_cons_l. cbn. apply orb_true_r.
Qed.

(** ** Running the handlers

    The handlers are run by unfolding the monad and splitting on what the
    oracle and the collections answer. *)

Ltac unfold_m :=
  unfold try_catch, bind, ret, throw, get, modify, io, now, fresh_id in *.

Ltac split_ifs :=
  repeat (cbn;
    match goal with
    | |- context [if ?b then _ else _] => destruct b eqn:?
    | |- context [match ?x with Some _ => _ | None => _ end] => destruct x eqn:?
    | |- context [let (_, _) := ?p in _] => is_var p; destruct p
    end);
  cbn.

Ltac run_contact :=
  unfold contact_handler, Contact_save, Contact_new, sendMail, to_string,
    method_trim; unfold_m.

Ltac run_tracker :=
  unfold trackVisitor, Visitor_findOne, Visitor_update, Visitor_insert; unfold_m.

Lemma new_events_app (w w' : world) (evs : list event) :
  trace w' = trace w ++ evs -> new_events w w' = evs.
Proof. unfold new_events. intros ->. apply drop_app_length. Qed.

(** *** The limiter *)

Lemma rateLimit_run (E : env) (o : RateLimit.options) (req : request) (w : world) :
  let entry := RateLimit.hit o (clock E (ticks w)) (contactHits w !! ip req) in
  rateLimit E o req w =
    (Ok (if (RateLimit.max o <? fst entry)%nat
         then Respond {| code := 429; content := Text (RateLimit.message o) |}
         else Next),
     with_contactHits (<[ip req := entry]> (contactHits w))
       (with_ticks (S (ticks w)) w)).
Proof.
  unfold rateLimit. unfold_m. cbn -[Nat.ltb].
  destruct (Nat.ltb _ _); reflexivity.
Qed.

(** *** The tracker *)

Lemma trackVisitor_next (E : env) (req : request) (w : world) :
  fst (trackVisitor E req w) = Ok Next.
Proof. run_tracker. split_ifs; reflexivity. Qed.

Lemma trackVisitor_frame (E : env) (req : request) (w : world) :
  let w' := snd (trackVisitor E req w) in
  contacts w' = contacts w /\ outbox w' = outbox w /\ blogs w' = blogs w /\
  contactHits w' = contactHits w /\ ticks w <= ticks w'.
Proof. run_tracker. split_ifs; repeat split; auto with lia. Qed.

Lemma trackVisitor_trace (E : env) (req : request) (w : world) :
  exists evs,
    trace (snd (trackVisitor E req w)) = trace w ++ evs /\
    Forall (fun ev => eff ev = DbRead Visitors \/ eff ev = DbWrite Visitors) evs.
Proof.
  run_tracker. split_ifs; rewrite <- ?app_assoc;
    (eexists; split;
       [reflexivity | cbn; repeat (apply Forall_cons_2; [cbn; auto |]); apply Forall_nil_2]).
Qed.

(** *** The contact handler *)

Lemma contact_handler_required (E : env) (req : request) (w : world) :
  JS.truthy (field "name" req) && JS.truthy (field "email" req) &&
  JS.truthy (field "subject" req) && JS.truthy (field "message" req) = false ->
  contact_handler E req w = (Ok all_fields_required, w).
Proof.
  intros H. run_contact.
  destruct (JS.truthy (field "name" req)), (JS.truthy (field "email" req)),
    (JS.truthy (field "subject" req)), (JS.truthy (field "message" req));
    try discriminate; reflexivity.
Qed.

Lemma contact_handler_bad_email (E : env) (req : request) (w : world) (e : string) :
  field "email" req = JS.JStr e ->
  JS.test emailRegex e = false ->
  exists m, contact_handler E req w = (Ok (json 400 m), w).
Proof.
  intros He Ht. run_contact. rewrite He. cbn.
  destruct (_ || _ || _ || _); cbn; [eauto |].
  rewrite Ht. cbn. eauto.
Qed.


(** *** The route of the contact form *)

Lemma post_contact_run (E : env) (req : request) (w : world) :
  let entry :=
    RateLimit.hit contactLimiter_options (clock E (ticks w))
      (contactHits w !! ip req) in
  let w1 :=
    with_contactHits (<[ip req := entry]> (contactHits w))
      (with_ticks (S (ticks w)) w) in
  post_contact E req w =
    if (5 <? fst entry)%nat then (Ok too_many_contacts, w1)
    else contact_handler E req (snd (trackVisitor E req w1)).
Proof.
  intros entry w1. unfold post_contact, route, contactLimiter.
  unfold bind at 1. rewrite rateLimit_run.
  change (RateLimit.max contactLimiter_options) with 5%nat.
  fold entry. fold w1.
  destruct (5 <? fst entry)%nat; [reflexivity |].
  unfold bind, ret.
  pose proof (trackVisitor_next E req w1) as Hn.
  destruct (trackVisitor E req w1) as [o w2]. cbn in Hn. subst o. reflexivity.
Qed.

Lemma missing_field_falsy (req : request) :
  missing_field req ->
  JS.truthy (field "name" req) && JS.truthy (field "email" req) &&
  JS.truthy (field "subject" req) && JS.truthy (field "message" req) = false.
Proof.
  intros [H | [H | [H | H]]]; rewrite H; cbn;
    rewrite ?andb_false_r; reflexivity.
Qed.

(** ** C2: a submission with an absent field *)

(** C2, as the claim states it, fails.  A submission without a name is
    answered with 400, but the visitor tracker, which the route runs before
    the handler, has by then written a Visitor document: the run of the
    route is not free of storage writes. *)
Lemma missing_field_visitor_written :
  missing_field req_no_name /\
  fst (post_contact env0 req_no_name world0) = Ok all_fields_required /\
  ~ Forall (fun ev => ~ is_write ev)
      (new_events world0 (snd (post_contact env0 req_no_name world0))).
Proof.
  split; [left; reflexivity |].
  split; [vm_compute; reflexivity |].
  assert (Hev : new_events world0 (snd (post_contact env0 req_no_name world0)) =
                [ {| eff := DbRead Visitors; succeeded := true |};
                  {| eff := DbWrite Visitors; succeeded := true |} ])
    by (vm_compute; reflexivity).
  rewrite Hev. intros H.
  inversion H as [|? ? _ H2]; subst. inversion H2 as [|? ? H3 _]; subst.
  apply H3. exists Visitors. reflexivity.
Qed.

(** C2, amended: when one of name, email, subject and message is absent, the
    handler answers 400 "All fields are required" and leaves the world as it
    was.  On the route, the request is answered with that 400 (or with the
    limiter's 429), no Contact document is created, no mail is sent, and
    the only operations on storage are those of the visitor tracker. *)
Theorem missing_field_rejected (E : env) (req : request) (w : world) :
  missing_field req ->
  contact_handler E req w = (Ok all_fields_required, w) /\
  (fst (post_contact E req w) = Ok all_fields_required \/
   fst (post_contact E req w) = Ok too_many_contacts) /\
  contacts (snd (post_contact E req w)) = contacts w /\
  outbox (snd (post_contact E req w)) = outbox w /\
  Forall (fun ev => eff ev = DbRead Visitors \/ eff ev = DbWrite Visitors)
    (new_events w (snd (post_contact E req w))).
Proof.
  intros Hm. apply missing_field_falsy in Hm.
  split; [now apply contact_handler_required |].
  rewrite post_contact_run.
  destruct (5 <? _)%nat.
  - cbn. repeat split; auto.
    unfold new_events. cbn. rewrite drop_all. constructor.
  - rewrite contact_handler_required by assumption. cbn [fst snd].
    match goal with |- context [trackVisitor E req ?w1] =>
      destruct (trackVisitor_frame E req w1) as (Hc & Ho & _);
      destruct (trackVisitor_trace E req w1) as (evs & Ht & Hevs)
    end.
    repeat split; auto.
    rewrite (new_events_app w _ evs); assumption.
Qed.

(** The amended C2 at a submission without a name. *)
Lemma missing_field_rejected_witness :
  missing_field req_no_name /\
  contacts (snd (post_contact env0 req_no_name world0)) = contacts world0 /\
  outbox (snd (post_contact env0 req_no_name world0)) = outbox world0.
Proof.
  assert (H : missing_field req_no_name) by (left; reflexivity).
  split; [exact H |].
  destruct (missing_field_rejected env0 req_no_name world0 H) as (_ & _ & Hc & Ho & _).
  split; assumption.
Defined.

(** ** C3 and C9: what the two checks let through *)

Lemma contact_handler_answers (E : env) (req : request) (w : world) :
  JS.truthy (field "name" req) = true ->
  JS.truthy (field "email" req) = true ->
  JS.truthy (field "subject" req) = true ->
  JS.truthy (field "message" req) = true ->
  fst (contact_handler E req w) = Ok invalid_email \/
  fst (contact_handler E req w) = Ok try_again_later \/
  fst (contact_handler E req w) = Ok message_sent.
Proof.
  intros Hn He Hs Hm. run_contact.
  rewrite Hn, He, Hs, Hm. cbn.
  destruct (field "name" req), (field "email" req), (field "subject" req),
    (field "message" req); split_ifs; auto.
Qed.

Lemma contact_handler_accepts (E : env) (req : request) (w : world) :
  passes_validation req ->
  fst (contact_handler E req w) = Ok try_again_later \/
  fst (contact_handler E req w) = Ok message_sent.
Proof.
  intros (Hn & He & Hs & Hm & e & Hts & Ht). run_contact.
  rewrite Hn, He, Hs, Hm, Hts. cbn. rewrite Ht. cbn.
  destruct (field "name" req), (field "email" req), (field "subject" req),
    (field "message" req); split_ifs; auto.
Qed.

(** C3: for a submission whose email is the string [e], the test of the
    handler succeeds exactly when [e] has the form local@domain.tld of the
    specification; it fails when [e] holds no [@], and when the part after
    an [@] of [e] holds no dot; and when it fails the handler answers 400 and
    leaves the world as it was.  When it succeeds and the other fields are
    present, the answer is not a 400. *)
Theorem invalid_email_rejected (E : env) (req : request) (w : world) (e : string) :
  field "email" req = JS.JStr e ->
  (JS.test emailRegex e = true <-> basic_local_domain_tld e) /\
  (JS.includes "@" e = false -> JS.test emailRegex e = false) /\
  (forall l d, e = l +:+ "@" +:+ d -> JS.includes "." d = false ->
               JS.test emailRegex e = false) /\
  (JS.test emailRegex e = false ->
   exists m, contact_handler E req w = (Ok (json 400 m), w)) /\
  (JS.test emailRegex e = true ->
   JS.truthy (field "name" req) = true ->
   JS.truthy (field "subject" req) = true ->
   JS.truthy (field "message" req) = true ->
   forall r, fst (contact_handler E req w) = Ok r -> code r <> 400%nat).
Proof.
  intros He. split; [apply emailRegex_test |].
  split.
  { intros Hat. destruct (JS.test emailRegex e) eqn:Ht; [| reflexivity].
    apply emailRegex_test, basic_includes_at in Ht. congruence. }
  split.
  { intros l d Hsplit Hdot. destruct (JS.test emailRegex e) eqn:Ht; [| reflexivity].
    apply emailRegex_test in Ht.
    rewrite (basic_domain_dot e l d Ht Hsplit) in Hdot. discriminate. }
  split; [now apply contact_handler_bad_email |].
  intros Ht Hn Hs Hm r Hr.
  assert (Hp : passes_validation req).
  { repeat split; auto.
    - rewrite He. cbn. destruct e; [discriminate Ht | reflexivity].
    - exists e. rewrite He. auto. }
  destruct (contact_handler_accepts E req w Hp) as [H | H];
    rewrite H in Hr; injection Hr as <-; cbn; discriminate.
Qed.

(** C3 at an email without [@]: the submission is answered with 400. *)
Lemma invalid_email_rejected_witness :
  field "email" req_no_at = JS.JStr "a.b.com" /\
  exists m, contact_handler env0 req_no_at world0 = (Ok (json 400 m), world0).
Proof.
  assert (H : field "email" req_no_at = JS.JStr "a.b.com") by reflexivity.
  split; [exact H |].
  destruct (invalid_email_rejected env0 req_no_at world0 "a.b.com" H)
    as (_ & Hat & _ & H400 & _).
  apply H400, Hat. reflexivity.
Defined.

Lemma trimStart_spaces (s : string) :
  JS.forallb_str JS.is_space s = true -> JS.trimStart s = EmptyString.
Proof.
  induction s as [|c s IH]; [reflexivity |].
  cbn [JS.forallb_str JS.trimStart]. intros H.
  apply andb_true_iff in H as [Hc Hs]. rewrite Hc. auto.
Qed.

(** C9: a submission whose four fields are strings that are not empty is
    not answered with 400 "All fields are required", also when one of them
    (here the name) is made of white space only, although the trimmed
    value, which the record would store, is then empty. *)
Theorem whitespace_passes_required_check (E : env) (req : request) (w : world)
    (n e s m : string) :
  field "name" req = JS.JStr n -> field "email" req = JS.JStr e ->
  field "subject" req = JS.JStr s -> field "message" req = JS.JStr m ->
  n <> EmptyString -> e <> EmptyString -> s <> EmptyString -> m <> EmptyString ->
  fst (contact_handler E req w) <> Ok all_fields_required /\
  (JS.forallb_str JS.is_space n = true -> JS.trim n = EmptyString).
Proof.
  intros Hn He Hs Hm Nn Ne Ns Nm. split.
  - assert (T : forall x v, field x req = JS.JStr v -> v <> EmptyString ->
                            JS.truthy (field x req) = true).
    { intros x v -> Hv. destruct v; [congruence | reflexivity]. }
    destruct (contact_handler_answers E req w) as [H | [H | H]]; eauto;
      rewrite H; discriminate.
  - intros Hsp. unfold JS.trim. now rewrite trimStart_spaces.
Qed.

(** C9 at a submission whose name is one space. *)
Lemma whitespace_passes_required_check_witness :
  fst (contact_handler env0 req_blank_name world0) <> Ok all_fields_required /\
  JS.trim " " = EmptyString.
Proof.
  destruct (whitespace_passes_required_check env0 req_blank_name world0
              " " "a@b.com" "Hi" "Test") as [H1 H2];
    try reflexivity; try discriminate.
  split; [exact H1 | apply H2; reflexivity].
Defined.

(** ** The contact handler on a submission of four strings *)

Lemma contact_handler_strings (E : env) (req : request) (w : world)
    (n e s m : string) :
  field "name" req = JS.JStr n -> field "email" req = JS.JStr e ->
  field "subject" req = JS.JStr s -> field "message" req = JS.JStr m ->
  passes_validation req ->
  let c := contact_of E req w n e s m in
  let alert := alert_of E req w n e s m in
  let reply := reply_of E n e s m in
  let saved := Contact.validate c && works E w 0 in
  let r := contact_handler E req w in
  fst r = Ok (if saved && works E w 1 && works E w 2
              then message_sent else try_again_later) /\
  contacts (snd r) = (if saved then contacts w ++ [c] else contacts w) /\
  outbox (snd r) =
    (if saved && works E w 1
     then if works E w 2 then outbox w ++ [alert; reply] else outbox w ++ [alert]
     else outbox w) /\
  new_events w (snd r) =
    (if Contact.validate c
     then {| eff := DbWrite Contacts; succeeded := works E w 0 |} ::
          (if works E w 0
           then {| eff := SendMail alert; succeeded := works E w 1 |} ::
                (if works E w 1
                 then [{| eff := SendMail reply; succeeded := works E w 2 |}]
                 else [])
           else [])
     else []).
Proof.
  intros Hn He Hs Hm (Tn & Te & Ts & Tm & e' & Hts & Ht).
  rewrite He in Hts. injection Hts as <-.
  intros c alert reply saved r. subst r saved. unfold works.
  run_contact. rewrite Tn, Te, Ts, Tm, Hn, He, Hs, Hm. cbn.
  rewrite Ht. cbn. fold (contact_of E req w n e s m). fold c.
  destruct (Contact.validate c); cbn.
  2: { repeat split; auto. apply new_events_app. cbn. now rewrite app_nil_r. }
  destruct (fault E (length (trace w))); cbn;
    [repeat split; auto; apply new_events_app; reflexivity |].
  rewrite ?length_app. cbn [length]. rewrite ?Nat.add_1_r.
  fold (alert_of E req w n e s m). fold alert.
  destruct (fault E (S (length (trace w)))); cbn;
    [repeat split; auto; apply new_events_app; cbn; now rewrite <- ?app_assoc |].
  rewrite ?length_app. cbn [length]. rewrite ?Nat.add_1_r.
  fold (reply_of E n e s m). fold reply.
  destruct (fault E (S (S (length (trace w))))); cbn;
    repeat split; rewrite <- ?app_assoc; auto;
    apply new_events_app; cbn; now rewrite <- ?app_assoc.
Qed.

Lemma string_fields_inv (req : request) :
  string_fields req = true ->
  exists n e s m,
    field "name" req = JS.JStr n /\ field "email" req = JS.JStr e /\
    field "subject" req = JS.JStr s /\ field "message" req = JS.JStr m.
Proof.
  unfold string_fields.
  destruct (field "name" req) as [|n|], (field "email" req) as [|e|],
    (field "subject" req) as [|s|], (field "message" req) as [|m|];
    try discriminate.
  intros _. exists n, e, s, m. auto.
Qed.

(** A value that is no string has no [trim]: the handler throws before it
    touches the world, and answers 500. *)
Lemma contact_handler_not_strings (E : env) (req : request) (w : world) :
  passes_validation req ->
  string_fields req = false ->
  contact_handler E req w = (Ok try_again_later, w).
Proof.
  intros (Tn & Te & Ts & Tm & e' & Hts & Ht) Hstr. unfold string_fields in Hstr.
  run_contact. rewrite Tn, Te, Ts, Tm, Hts. cbn. rewrite Ht. cbn.
  destruct (field "name" req), (field "email" req), (field "subject" req),
    (field "message" req); try discriminate; reflexivity.
Qed.

Lemma contact_of_clock (E E' : env) (req : request) (w : world) (n e s m : string) :
  clock E' = clock E -> contact_of E' req w n e s m = contact_of E req w n e s m.
Proof. unfold contact_of. now intros ->. Qed.

Lemma new_events_same (w : world) : new_events w w = [].
Proof. unfold new_events. apply drop_all. Qed.

(** ** C1: the record is written before the mails are sent *)

(** C1: for a submission that passes validation, every send of a mail,
    whatever its outcome, comes after the write of the Contact document has
    succeeded, and that document is then the one that was added; when a send
    fails, the handler answers 500 "Failed to send message. Please try again
    later." and the one document stays; and the contacts that the handler
    leaves are the same in every environment that agrees on the clock and on
    the outcome of the write, whatever the sends do. *)
Theorem persisted_before_dispatch (E : env) (req : request) (w : world) :
  passes_validation req ->
  (forall i ev,
      new_events w (snd (contact_handler E req w)) !! i = Some ev ->
      is_send ev ->
      (0 < i)%nat /\
      new_events w (snd (contact_handler E req w)) !! 0%nat =
        Some {| eff := DbWrite Contacts; succeeded := true |} /\
      exists c, contacts (snd (contact_handler E req w)) = contacts w ++ [c]) /\
  (forall i ev,
      new_events w (snd (contact_handler E req w)) !! i = Some ev ->
      is_send ev -> succeeded ev = false ->
      fst (contact_handler E req w) = Ok try_again_later /\
      exists c, contacts (snd (contact_handler E req w)) = contacts w ++ [c]) /\
  (forall E',
      clock E' = clock E ->
      fault E' (length (trace w)) = fault E (length (trace w)) ->
      contacts (snd (contact_handler E' req w)) =
      contacts (snd (contact_handler E req w))).
Proof.
  intros Hp. destruct (string_fields req) eqn:Hstr.
  - apply string_fields_inv in Hstr as (n & e & s & m & Hn & He & Hs & Hm).
    destruct (contact_handler_strings E req w n e s m Hn He Hs Hm Hp)
      as (Hr & Hc & _ & Hev).
    cbv zeta in Hr, Hc, Hev. rewrite Hr, Hc, Hev.
    split; [| split].
    + intros i ev Hi [ml Hml].
      destruct (Contact.validate _); [| destruct i; discriminate].
      destruct (works E w 0); cbn;
        [| destruct i as [|[|]]; cbn in Hi; try discriminate;
           injection Hi as <-; discriminate].
      destruct i as [|i]; [injection Hi as <-; discriminate |].
      split; [lia |]. split; [reflexivity | eauto].
    + intros i ev Hi [ml Hml] Hfail.
      destruct (Contact.validate _); [| destruct i; discriminate].
      destruct (works E w 0) eqn:W0; cbn;
        [| destruct i as [|[|]]; cbn in Hi; try discriminate;
           injection Hi as <-; discriminate].
      destruct i as [|i]; [injection Hi as <-; discriminate |].
      cbn in Hi. destruct i as [|i].
      * injection Hi as <-. cbn in Hfail. rewrite Hfail. cbn. eauto.
      * destruct (works E w 1) eqn:W1; [| destruct i; discriminate].
        destruct i as [|i]; [| destruct i; discriminate].
        injection Hi as <-. cbn in Hfail. rewrite Hfail. cbn. eauto.
    + intros E' Hclock Hfault.
      destruct (contact_handler_strings E' req w n e s m Hn He Hs Hm Hp)
        as (_ & Hc' & _).
      cbv zeta in Hc'. rewrite Hc', (contact_of_clock E E') by assumption.
      unfold works. cbn. now rewrite Hfault.
  - rewrite (contact_handler_not_strings E req w Hp Hstr). cbn.
    rewrite new_events_same.
    repeat split; intros; try discriminate; auto.
    now rewrite (contact_handler_not_strings E' req w Hp Hstr).
Qed.

(** C1 at the example of the specification, when the first send fails. *)
Lemma persisted_before_dispatch_witness :
  passes_validation req_example /\
  fst (contact_handler (env_fail 1) req_example world0) = Ok try_again_later /\
  exists c,
    contacts (snd (contact_handler (env_fail 1) req_example world0)) =
    contacts world0 ++ [c].
Proof.
  assert (Hp : passes_validation req_example).
  { repeat split; try reflexivity. exists "a@b.com". split; reflexivity. }
  split; [exact Hp |].
  destruct (persisted_before_dispatch (env_fail 1) req_example world0 Hp)
    as (_ & H & _).
  eapply (H 1%nat).
  - vm_compute. reflexivity.
  - eexists. reflexivity.
  - reflexivity.
Defined.

(** ** Trimming and lower-casing *)

Lemma trimStart_head (s : string) :
  JS.trimStart s = EmptyString \/
  exists c u, JS.trimStart s = String c u /\ JS.is_space c = false.
Proof.
  induction s as [|c s IH]; [now left |].
  cbn [JS.trimStart]. destruct (JS.is_space c) eqn:Hc; [exact IH |].
  right. eauto.
Qed.

Lemma trimEnd_head (c : ascii) (s : string) :
  JS.is_space c = false -> exists t, JS.trimEnd (String c s) = String c t.
Proof.
  intros Hc. cbn [JS.trimEnd]. destruct (JS.trimEnd s); [rewrite Hc |]; eauto.
Qed.

Lemma trimEnd_idem (s : string) : JS.trimEnd (JS.trimEnd s) = JS.trimEnd s.
Proof.
  induction s as [|c s IH]; [reflexivity |].
  cbn [JS.trimEnd]. destruct (JS.trimEnd s) as [|d t] eqn:Ht.
  - destruct (JS.is_space c) eqn:Hc; [reflexivity |].
    cbn [JS.trimEnd]. now rewrite Hc.
  - change (JS.trimEnd (String c (String d t))) with
      (match JS.trimEnd (String d t) with
       | EmptyString => if JS.is_space c then EmptyString else String c EmptyString
       | u => String c u
       end).
    now rewrite IH.
Qed.

Lemma trim_idem (s : string) : JS.trim (JS.trim s) = JS.trim s.
Proof.
  unfold JS.trim. destruct (trimStart_head s) as [-> | (c & u & -> & Hc)];
    [reflexivity |].
  destruct (trimEnd_head c u Hc) as [t Ht]. rewrite Ht.
  cbn [JS.trimStart]. rewrite Hc, <- Ht. apply trimEnd_idem.
Qed.

Lemma is_space_lower (c : ascii) : JS.is_space (JS.lower_char c) = JS.is_space c.
Proof. destruct c as [[] [] [] [] [] [] [] []]; reflexivity. Qed.

Lemma lower_char_idem (c : ascii) :
  JS.lower_char (JS.lower_char c) = JS.lower_char c.
Proof. destruct c as [[] [] [] [] [] [] [] []]; reflexivity. Qed.

Lemma toLowerCase_idem (s : string) :
  JS.toLowerCase (JS.toLowerCase s) = JS.toLowerCase s.
Proof.
  induction s as [|c s IH]; [reflexivity |].
  cbn [JS.toLowerCase]. now rewrite lower_char_idem, IH.
Qed.

Lemma trimStart_lower (s : string) :
  JS.trimStart (JS.toLowerCase s) = JS.toLowerCase (JS.trimStart s).
Proof.
  induction s as [|c s IH]; [reflexivity |].
  cbn [JS.toLowerCase JS.trimStart]. rewrite is_space_lower.
  destruct (JS.is_space c); [exact IH | reflexivity].
Qed.

Lemma trimEnd_lower (s : string) :
  JS.trimEnd (JS.toLowerCase s) = JS.toLowerCase (JS.trimEnd s).
Proof.
  induction s as [|c s IH]; [reflexivity |].
  cbn [JS.toLowerCase JS.trimEnd]. rewrite IH, is_space_lower.
  destruct (JS.trimEnd s); cbn [JS.toLowerCase];
    [destruct (JS.is_space c) |]; reflexivity.
Qed.

Lemma trim_lower (s : string) :
  JS.trim (JS.toLowerCase s) = JS.toLowerCase (JS.trim s).
Proof. unfold JS.trim. now rewrite trimStart_lower, trimEnd_lower. Qed.

(** The email of the stored document, after the handler and the setters. *)
Lemma stored_email (e : string) :
  JS.trim (JS.toLowerCase (JS.toLowerCase (JS.trim e))) =
  JS.toLowerCase (JS.trim e).
Proof. now rewrite toLowerCase_idem, trim_lower, trim_idem. Qed.

(** An email that the expression matches is not empty once trimmed. *)
Lemma matched_email_not_blank (e : string) :
  JS.test emailRegex e = true -> JS.is_empty (JS.toLowerCase (JS.trim e)) = false.
Proof.
  intros H. apply emailRegex_test in H as (l & d & t & -> & [Hl Hall] & _).
  destruct l as [|c l]; [congruence |].
  cbn [JS.forallb_str] in Hall. apply andb_true_iff in Hall as [Hc _].
  unfold not_space_at in Hc. apply andb_true_iff in Hc as [Hc _].
  apply negb_true_iff in Hc.
  rewrite append_cons_l. unfold JS.trim. cbn [JS.trimStart]. rewrite Hc.
  destruct (trimEnd_head c (l +:+ "@" +:+ d +:+ "." +:+ t) Hc) as [u ->].
  reflexivity.
Qed.

Lemma is_empty_false (s : string) : s <> EmptyString -> JS.is_empty s = false.
Proof. destruct s; [congruence | reflexivity]. Qed.

(** ** C4: a valid submission *)

(** C4, as the claim states it, fails.  A submission whose name is one space
    passes both checks of the handler; the document built from it has an
    empty name, which the validators of the schema refuse: the answer is
    500 and no document is stored, in an environment where nothing fails.
    And the example of the specification, when the transport refuses the
    first mail, is answered with 500, not with 200. *)
Lemma valid_submission_not_always_stored :
  (passes_validation req_blank_name /\
   fst (contact_handler env0 req_blank_name world0) = Ok try_again_later /\
   contacts (snd (contact_handler env0 req_blank_name world0)) = []) /\
  (passes_validation req_example /\
   fst (contact_handler (env_fail 1) req_example world0) = Ok try_again_later).
Proof.
  split; (split; [repeat split; try reflexivity;
                  exists "a@b.com"; split; reflexivity |]).
  - split; vm_compute; reflexivity.
  - vm_compute; reflexivity.
Qed.

(** C4, amended: a submission of four strings that passes validation, whose
    name, subject and message are not empty once trimmed, and for which the
    write to storage and the two sends succeed, is answered with 200, and
    exactly one Contact document is added: its strings are the trimmed
    ones, its email is lower-cased, and its status is 'new'. *)
Theorem valid_submission_stored (E : env) (req : request) (w : world)
    (n e s m : string) :
  field "name" req = JS.JStr n -> field "email" req = JS.JStr e ->
  field "subject" req = JS.JStr s -> field "message" req = JS.JStr m ->
  passes_validation req ->
  JS.trim n <> EmptyString -> JS.trim s <> EmptyString -> JS.trim m <> EmptyString ->
  works E w 0 = true -> works E w 1 = true -> works E w 2 = true ->
  fst (contact_handler E req w) = Ok message_sent /\
  exists c,
    contacts (snd (contact_handler E req w)) = contacts w ++ [c] /\
    Contact.name c = JS.trim n /\
    Contact.email c = JS.toLowerCase (JS.trim e) /\
    Contact.subject c = JS.trim s /\
    Contact.message c = JS.trim m /\
    Contact.status c = "new".
Proof.
  intros Hn He Hs Hm Hp Nn Ns Nm W0 W1 W2.
  destruct (contact_handler_strings E req w n e s m Hn He Hs Hm Hp)
    as (Hr & Hc & _).
  cbv zeta in Hr, Hc.
  assert (Hv : Contact.validate (contact_of E req w n e s m) = true).
  { destruct Hp as (_ & _ & _ & _ & e' & Hts & Ht).
    rewrite He in Hts. injection Hts as <-.
    unfold Contact.validate, contact_of. cbn.
    rewrite !trim_idem, stored_email, matched_email_not_blank by assumption.
    now rewrite !is_empty_false by assumption. }
  rewrite Hv, W0, W1, W2 in Hr. rewrite Hv, W0 in Hc. cbn in Hr, Hc.
  split; [exact Hr |].
  exists (contact_of E req w n e s m). split; [exact Hc |].
  unfold contact_of. cbn. rewrite !trim_idem, stored_email. auto.
Qed.

(** The amended C4 at the example of the specification. *)
Lemma valid_submission_stored_witness :
  passes_validation req_example /\
  fst (contact_handler env0 req_example world0) = Ok message_sent /\
  exists c,
    contacts (snd (contact_handler env0 req_example world0)) = contacts world0 ++ [c] /\
    Contact.name c = JS.trim "A" /\
    Contact.email c = JS.toLowerCase (JS.trim "a@b.com") /\
    Contact.subject c = JS.trim "Hi" /\
    Contact.message c = JS.trim "Test" /\
    Contact.status c = "new".
Proof.
  assert (Hp : passes_validation req_example).
  { repeat split; try reflexivity. exists "a@b.com". split; reflexivity. }
  split; [exact Hp |].
  apply (valid_submission_stored env0 req_example world0 "A" "a@b.com" "Hi" "Test");
    try reflexivity; try exact Hp; discriminate.
Defined.

(** ** C10: the mails carry the values of the body as they came *)

Lemma occurs_here (a rest : string) : occurs_in a (a +:+ rest).
Proof. exists EmptyString, rest. reflexivity. Qed.

Lemma occurs_skip (a x y : string) : occurs_in a y -> occurs_in a (x +:+ y).
Proof.
  intros (pre & post & ->). exists (x +:+ pre), post.
  now rewrite append_assoc.
Qed.

Ltac find_occurrence :=
  repeat first [apply occurs_here | apply occurs_skip].

Lemma alert_html_occurs (n e s m i u t : string) :
  occurs_in n (alert_html n e s m i u t) /\
  occurs_in e (alert_html n e s m i u t) /\
  occurs_in s (alert_html n e s m i u t) /\
  occurs_in m (alert_html n e s m i u t).
Proof. unfold alert_html. repeat split; find_occurrence. Qed.

Lemma reply_html_occurs (n s m : string) :
  occurs_in n (reply_html n s m) /\
  occurs_in s (reply_html n s m) /\
  occurs_in m (reply_html n s m).
Proof. unfold reply_html. repeat split; find_occurrence. Qed.

Lemma occurs_includes (c : ascii) (a b : string) :
  occurs_in a b -> JS.includes c a = true -> JS.includes c b = true.
Proof.
  intros (pre & post & ->) H.
  rewrite !includes_append, H. now rewrite orb_true_r.
Qed.

(** C10, as the claim states it, fails.  For a validated submission whose
    email is "Ann@B.Com", the transport accepts the alert and the
    acknowledgment, and the email does not occur in the body of the
    acknowledgment: that body interpolates the name, the subject and the
    message only. *)
Lemma acknowledgment_body_omits_email :
  passes_validation req_raw /\
  outbox (snd (contact_handler env0 req_raw world0)) =
    [alert_of env0 req_raw world0 " Ann " "Ann@B.Com" "Hi " " Test";
     reply_of env0 " Ann " "Ann@B.Com" "Hi " " Test"] /\
  ~ occurs_in "Ann@B.Com"
      (Mail.html (reply_of env0 " Ann " "Ann@B.Com" "Hi " " Test")).
Proof.
  split.
  { repeat split; try reflexivity. exists "Ann@B.Com". split; reflexivity. }
  split; [vm_compute; reflexivity |].
  intros H. apply (occurs_includes "@") in H; [| reflexivity].
  vm_compute in H. discriminate H.
Qed.

(** C10, amended: for a validated submission of the strings [n], [e], [s]
    and [m], the only mails handed to the transport are the alert and the
    acknowledgment made from these strings as they came: the acknowledgment
    goes to [e] itself, the subject of the alert ends in [s], and [n], [e],
    [s] and [m] occur in the body of the alert, [n], [s] and [m] in the body
    of the acknowledgment.  When the write and the sends succeed, these two
    mails are the ones the transport accepted.  The document that is
    stored, when one is, holds the trimmed strings and the lower-cased
    email. *)
Theorem mails_built_from_raw_values (E : env) (req : request) (w : world)
    (n e s m : string) :
  field "name" req = JS.JStr n -> field "email" req = JS.JStr e ->
  field "subject" req = JS.JStr s -> field "message" req = JS.JStr m ->
  passes_validation req ->
  (forall i ev ml,
      new_events w (snd (contact_handler E req w)) !! i = Some ev ->
      eff ev = SendMail ml ->
      ml = alert_of E req w n e s m \/ ml = reply_of E n e s m) /\
  (fst (contact_handler E req w) = Ok message_sent ->
   outbox (snd (contact_handler E req w)) =
   outbox w ++ [alert_of E req w n e s m; reply_of E n e s m]) /\
  Mail.to (reply_of E n e s m) = e /\
  Mail.subject (alert_of E req w n e s m) = "Portfolio Contact: " +:+ s /\
  (occurs_in n (Mail.html (alert_of E req w n e s m)) /\
   occurs_in e (Mail.html (alert_of E req w n e s m)) /\
   occurs_in s (Mail.html (alert_of E req w n e s m)) /\
   occurs_in m (Mail.html (alert_of E req w n e s m))) /\
  (occurs_in n (Mail.html (reply_of E n e s m)) /\
   occurs_in s (Mail.html (reply_of E n e s m)) /\
   occurs_in m (Mail.html (reply_of E n e s m))) /\
  (contacts (snd (contact_handler E req w)) = contacts w \/
   exists c,
     contacts (snd (contact_handler E req w)) = contacts w ++ [c] /\
     Contact.name c = JS.trim n /\
     Contact.email c = JS.toLowerCase (JS.trim e) /\
     Contact.subject c = JS.trim s /\
     Contact.message c = JS.trim m).
Proof.
  intros Hn He Hs Hm Hp.
  destruct (contact_handler_strings E req w n e s m Hn He Hs Hm Hp)
    as (Hr & Hc & Ho & Hev).
  cbv zeta in Hr, Hc, Ho, Hev. rewrite Hr, Hc, Ho, Hev.
  split; [| split; [| split; [| split; [| split; [| split]]]]].
  - intros i ev ml Hi Hml.
    destruct (Contact.validate _); [| destruct i; discriminate].
    destruct i as [|i]; cbn in Hi;
      [injection Hi as <-; discriminate |].
    destruct (works E w 0); [| destruct i; discriminate].
    destruct i as [|i]; cbn in Hi;
      [injection Hi as <-; injection Hml as <-; now left |].
    destruct (works E w 1); [| destruct i; discriminate].
    destruct i as [|i]; cbn in Hi; [| destruct i; discriminate].
    injection Hi as <-. injection Hml as <-. now right.
  - destruct (Contact.validate _), (works E w 0), (works E w 1), (works E w 2);
      cbn; intros H; try discriminate H; reflexivity.
  - reflexivity.
  - reflexivity.
  - apply alert_html_occurs.
  - apply reply_html_occurs.
  - destruct (Contact.validate _ && works E w 0); [right | now left].
    eexists. split; [reflexivity |].
    unfold contact_of. cbn. rewrite !trim_idem, stored_email. auto.
Qed.

(** The amended C10 at a submission with white space around the name and capitals in
    the email: the acknowledgment goes to the email as it came, the stored
    email is the lower-cased one, and the stored name is the trimmed one. *)
Lemma mails_built_from_raw_values_witness :
  passes_validation req_raw /\
  Mail.to (reply_of env0 " Ann " "Ann@B.Com" "Hi " " Test") = "Ann@B.Com" /\
  outbox (snd (contact_handler env0 req_raw world0)) =
    [alert_of env0 req_raw world0 " Ann " "Ann@B.Com" "Hi " " Test";
     reply_of env0 " Ann " "Ann@B.Com" "Hi " " Test"] /\
  map (fun c => (Contact.name c, Contact.email c))
    (contacts (snd (contact_handler env0 req_raw world0))) = [("Ann", "ann@b.com")].
Proof.
  assert (Hp : passes_validation req_raw).
  { repeat split; try reflexivity. exists "Ann@B.Com". split; reflexivity. }
  split; [exact Hp |].
  destruct (mails_built_from_raw_values env0 req_raw world0
              " Ann " "Ann@B.Com" "Hi " " Test") as (_ & Ho & Hto & _);
    try reflexivity; try exact Hp.
  split; [exact Hto |].
  split; [apply Ho; vm_compute; reflexivity | vm_compute; reflexivity].
Defined.

(** ** C6: the visitor tracker *)

Lemma works_0 (E : env) (w : world) :
  works E w 0 = true -> fault E (length (trace w)) = false.
Proof. unfold works. cbn. apply negb_true_iff. Qed.

Lemma works_1 (E : env) (w : world) :
  works E w 1 = true -> fault E (S (length (trace w))) = false.
Proof. unfold works. cbn. apply negb_true_iff. Qed.

Lemma trackVisitor_returning (E : env) (req : request) (w : world)
    (a : string) (i : nat) (v : Visitor.doc) :
  address_of req = Some a -> a <> EmptyString ->
  works E w 0 = true -> works E w 1 = true ->
  list_find (fun v => Visitor.ipAddress v = Some a) (visitors w) = Some (i, v) ->
  visitors (snd (trackVisitor E req w)) =
    <[i := {| Visitor._id := Visitor._id v;
              Visitor.ipAddress := Visitor.ipAddress v;
              Visitor.userAgent := Visitor.userAgent v;
              Visitor.referrer := Visitor.referrer v;
              Visitor.visitedPages :=
                Visitor.visitedPages v ++
                [{| Visitor.page := originalUrl req;
                    Visitor.timestamp := clock E (S (ticks w)) |}];
              Visitor.isReturningVisitor := true;
              Visitor.createdAt := Visitor.createdAt v;
              Visitor.lastVisit := clock E (ticks w) |}]> (visitors w).
Proof.
  intros Ha Hne W0 W1 Hfind.
  apply works_0 in W0. apply works_1 in W1.
  pose proof Hfind as Hv. apply list_find_Some in Hv as (_ & Hip & _).
  run_tracker. rewrite Ha. cbn. rewrite W0. cbn. rewrite Hfind. cbn.
  unfold Visitor.validate. cbn. rewrite Hip, (is_empty_false a Hne). cbn.
  rewrite length_app. cbn [length]. rewrite Nat.add_1_r, W1. reflexivity.
Qed.

Lemma trackVisitor_first_time (E : env) (req : request) (w : world) (a : string) :
  address_of req = Some a -> a <> EmptyString ->
  works E w 0 = true -> works E w 1 = true ->
  list_find (fun v => Visitor.ipAddress v = Some a) (visitors w) = None ->
  visitors (snd (trackVisitor E req w)) =
    visitors w ++
    [{| Visitor._id := next_id w;
        Visitor.ipAddress := Some a;
        Visitor.userAgent := userAgentHeader req;
        Visitor.referrer := referrerHeader req;
        Visitor.visitedPages :=
          [{| Visitor.page := originalUrl req;
              Visitor.timestamp := clock E (ticks w) |}];
        Visitor.isReturningVisitor := false;
        Visitor.createdAt := clock E (S (ticks w));
        Visitor.lastVisit := clock E (S (S (ticks w))) |}].
Proof.
  intros Ha Hne W0 W1 Hfind.
  apply works_0 in W0. apply works_1 in W1.
  run_tracker. rewrite Ha. cbn. rewrite W0. cbn. rewrite Hfind. cbn.
  unfold Visitor.validate. cbn. rewrite (is_empty_false a Hne). cbn.
  rewrite length_app. cbn [length]. rewrite Nat.add_1_r, W1. reflexivity.
Qed.

(** C6: the tracker always calls [next()], whatever fails.  When the
    request has an address [a] and the read and the write succeed: if a
    Visitor document with exactly the address [a] exists, the first such
    document gets its returning flag set, its last visit updated and one
    visit of the current path appended, and no document is added or
    changed otherwise; if none exists, exactly one document is added, with
    that address and a single visit. *)
Theorem tracker_upserts (E : env) (req : request) (w : world) :
  fst (trackVisitor E req w) = Ok Next /\
  forall a,
    address_of req = Some a -> a <> EmptyString ->
    works E w 0 = true -> works E w 1 = true ->
    (forall i v,
        list_find (fun v => Visitor.ipAddress v = Some a) (visitors w) = Some (i, v) ->
        exists v',
          visitors (snd (trackVisitor E req w)) = <[i := v']> (visitors w) /\
          length (visitors (snd (trackVisitor E req w))) = length (visitors w) /\
          Visitor.ipAddress v' = Some a /\
          Visitor.isReturningVisitor v' = true /\
          Visitor.lastVisit v' = clock E (ticks w) /\
          Visitor.visitedPages v' =
            Visitor.visitedPages v ++
            [{| Visitor.page := originalUrl req;
                Visitor.timestamp := clock E (S (ticks w)) |}] /\
          length (Visitor.visitedPages v') = S (length (Visitor.visitedPages v))) /\
    (list_find (fun v => Visitor.ipAddress v = Some a) (visitors w) = None ->
     exists v',
       visitors (snd (trackVisitor E req w)) = visitors w ++ [v'] /\
       Visitor.ipAddress v' = Some a /\
       Visitor.isReturningVisitor v' = false /\
       Visitor.visitedPages v' =
         [{| Visitor.page := originalUrl req;
             Visitor.timestamp := clock E (ticks w) |}]).
Proof.
  split; [apply trackVisitor_next |].
  intros a Ha Hne W0 W1. split.
  - intros i v Hfind.
    rewrite (trackVisitor_returning E req w a i v) by assumption.
    apply list_find_Some in Hfind as (_ & Hip & _).
    eexists. split; [reflexivity |]. cbn.
    rewrite length_insert, length_app. cbn. repeat split; auto. lia.
  - intros Hfind.
    rewrite (trackVisitor_first_time E req w a) by assumption.
    eexists. split; [reflexivity |]. cbn. auto.
Qed.

(** C6 at a second request from an address that was seen before. *)
Lemma tracker_upserts_witness :
  fst (trackVisitor env0 req_example world_seen) = Ok Next /\
  exists v',
    visitors (snd (trackVisitor env0 req_example world_seen)) = [v'] /\
    Visitor.isReturningVisitor v' = true /\
    length (Visitor.visitedPages v') = 2%nat.
Proof.
  destruct (tracker_upserts env0 req_example world_seen) as [Hnext H].
  split; [exact Hnext |].
  destruct (H "203.0.113.9") as [Hret _];
    try reflexivity; try discriminate.
  destruct (Hret 0%nat visitor_seen) as (v' & Hv & _ & _ & Hr & _ & _ & Hl);
    [reflexivity |].
  exists v'. split; [exact Hv |]. split; [exact Hr | exact Hl].
Defined.

(** ** C7: a blog post by its slug *)

Lemma round_double_exact (x : Z) :
  (- 2 ^ 53 < x < 2 ^ 53)%Z -> round_double x = x.
Proof.
  intros H. unfold round_double. cbv zeta.
  assert (Hlt : (Z.abs x <? 2 ^ 53)%Z = true) by (apply Z.ltb_lt; lia).
  now rewrite Hlt.
Qed.

Lemma add_one_exact (v : Z) :
  (- 2 ^ 53 <= v < 2 ^ 53)%Z -> add_numbers v 1 = (v + 1)%Z.
Proof.
  intros H. unfold add_numbers. destruct (Z.eq_dec v (2 ^ 53 - 1)%Z) as [-> | Hne].
  - vm_compute. reflexivity.
  - apply round_double_exact. lia.
Qed.

Lemma blog_handler_views (E : env) (req : request) (w : world) :
  (forall i b,
      works E w 0 = true -> works E w 1 = true ->
      list_find (fun b => Blog.slug b = param req) (blogs w) = Some (i, b) ->
      Blog.validate b = true ->
      fst (blog_handler E req w) =
        Ok {| code := 200;
              content := BlogJson (Blog.set_views (add_numbers (Blog.views b) 1) b) |} /\
      blogs (snd (blog_handler E req w)) =
        <[i := Blog.set_views (add_numbers (Blog.views b) 1) b]> (blogs w)) /\
  (works E w 0 = true ->
   list_find (fun b => Blog.slug b = param req) (blogs w) = None ->
   fst (blog_handler E req w) = Ok (json 404 "Blog post not found") /\
   blogs (snd (blog_handler E req w)) = blogs w).
Proof.
  split.
  - intros i b W0 W1 Hfind Hv. apply works_0 in W0. apply works_1 in W1.
    unfold blog_handler, Blog_findOne, Blog_update. unfold_m. cbn.
    rewrite W0. cbn. rewrite Hfind. cbn.
    change (Blog.validate (Blog.set_views (add_numbers (Blog.views b) 1) b))
      with (Blog.validate b).
    rewrite Hv. cbn.
    rewrite length_app. cbn [length]. rewrite Nat.add_1_r, W1. cbn. auto.
  - intros W0 Hfind. apply works_0 in W0.
    unfold blog_handler, Blog_findOne, Blog_update. unfold_m. cbn.
    rewrite W0. cbn. rewrite Hfind. cbn. auto.
Qed.

(** The post that a successful fetch stores and answers with: the counter
    of [b] raised by 1, every other field as in [b]. *)
Lemma raised_post (b : Blog.doc) :
  (- 2 ^ 53 <= Blog.views b < 2 ^ 53)%Z ->
  Blog.views (Blog.set_views (add_numbers (Blog.views b) 1) b) =
    (Blog.views b + 1)%Z /\
  (Blog._id (Blog.set_views (add_numbers (Blog.views b) 1) b),
   Blog.title (Blog.set_views (add_numbers (Blog.views b) 1) b),
   Blog.slug (Blog.set_views (add_numbers (Blog.views b) 1) b),
   Blog.content (Blog.set_views (add_numbers (Blog.views b) 1) b),
   Blog.published (Blog.set_views (add_numbers (Blog.views b) 1) b),
   Blog.likes (Blog.set_views (add_numbers (Blog.views b) 1) b)) =
  (Blog._id b, Blog.title b, Blog.slug b, Blog.content b, Blog.published b,
   Blog.likes b).
Proof. intros H. cbn. now rewrite (add_one_exact _ H). Qed.

Lemma get_blog_slug_run (E : env) (req : request) (w : world) :
  get_blog_slug E req w = blog_handler E req (snd (trackVisitor E req w)).
Proof.
  unfold get_blog_slug, route. unfold bind, ret.
  pose proof (trackVisitor_next E req w) as Hn.
  destruct (trackVisitor E req w) as [o w2]. cbn in Hn. subst o. reflexivity.
Qed.

(** C7, as the claim states it, fails.  A post whose counter has reached
    2^53 is fetched in an environment where nothing fails: the answer is
    200 with the post, but adding 1 to that number gives the same number,
    and the stored counter is what it was, not one more. *)
Lemma blog_counter_stuck_at_2_53 :
  fst (get_blog_slug env0 (get_slug "popular") world_blog_full) =
    Ok {| code := 200; content := BlogJson blog_full |} /\
  map Blog.views (blogs world_blog_full) = [(2 ^ 53)%Z] /\
  map Blog.views
    (blogs (snd (get_blog_slug env0 (get_slug "popular") world_blog_full))) =
    [(2 ^ 53)%Z] /\
  map Blog.views
    (blogs (snd (get_blog_slug env0 (get_slug "popular") world_blog_full))) <>
    [(2 ^ 53 + 1)%Z].
Proof.
  assert (H : map Blog.views
    (blogs (snd (get_blog_slug env0 (get_slug "popular") world_blog_full))) =
    [(2 ^ 53)%Z]) by (vm_compute; reflexivity).
  split; [vm_compute; reflexivity |].
  split; [reflexivity |].
  split; [exact H |]. rewrite H. intros Heq. discriminate Heq.
Qed.

(** C7, amended: when the first post with the slug of the request is [b],
    [b] passes the validators of the schema, its counter is an integer
    from -2^53 to below 2^53, and the read and the write of the handler
    succeed, the handler answers 200 with the post: its view counter is
    that of [b] raised by exactly 1 and its other fields are those of [b];
    this post is stored in the place of [b], every other post being left as
    it was.  When no post has the slug and the read succeeds, the answer is
    404 and the posts are left as they were.  The same holds of the whole
    route, tracker included, when no operation fails. *)
Theorem blog_views_incremented (E : env) (req : request) (w : world) :
  (forall i b,
      works E w 0 = true -> works E w 1 = true ->
      list_find (fun b => Blog.slug b = param req) (blogs w) = Some (i, b) ->
      Blog.validate b = true ->
      (- 2 ^ 53 <= Blog.views b < 2 ^ 53)%Z ->
      exists b',
        fst (blog_handler E req w) = Ok {| code := 200; content := BlogJson b' |} /\
        blogs (snd (blog_handler E req w)) = <[i := b']> (blogs w) /\
        Blog.views b' = (Blog.views b + 1)%Z /\
        (Blog._id b', Blog.title b', Blog.slug b', Blog.content b',
         Blog.published b', Blog.likes b') =
        (Blog._id b, Blog.title b, Blog.slug b, Blog.content b,
         Blog.published b, Blog.likes b) /\
        (forall j, j <> i ->
                   blogs (snd (blog_handler E req w)) !! j = blogs w !! j)) /\
  (works E w 0 = true ->
   list_find (fun b => Blog.slug b = param req) (blogs w) = None ->
   fst (blog_handler E req w) = Ok (json 404 "Blog post not found") /\
   blogs (snd (blog_handler E req w)) = blogs w) /\
  ((forall k, fault E k = false) ->
   (forall i b,
       list_find (fun b => Blog.slug b = param req) (blogs w) = Some (i, b) ->
       Blog.validate b = true ->
       (- 2 ^ 53 <= Blog.views b < 2 ^ 53)%Z ->
       exists b',
         fst (get_blog_slug E req w) = Ok {| code := 200; content := BlogJson b' |} /\
         blogs (snd (get_blog_slug E req w)) = <[i := b']> (blogs w) /\
         Blog.views b' = (Blog.views b + 1)%Z /\
         (Blog._id b', Blog.title b', Blog.slug b', Blog.content b',
          Blog.published b', Blog.likes b') =
         (Blog._id b, Blog.title b, Blog.slug b, Blog.content b,
          Blog.published b, Blog.likes b)) /\
   (list_find (fun b => Blog.slug b = param req) (blogs w) = None ->
    fst (get_blog_slug E req w) = Ok (json 404 "Blog post not found") /\
    blogs (snd (get_blog_slug E req w)) = blogs w)).
Proof.
  destruct (blog_handler_views E req w) as [Hfound Hnone].
  split; [| split; [exact Hnone |]].
  - intros i b W0 W1 Hfind Hv Hrange.
    destruct (Hfound i b W0 W1 Hfind Hv) as [Hr Hb].
    destruct (raised_post b Hrange) as [Hviews Hsame].
    eexists. split; [exact Hr |]. split; [exact Hb |].
    split; [exact Hviews |]. split; [exact Hsame |].
    intros j Hj. rewrite Hb. now apply list_lookup_insert_ne.
  - intros Hok. rewrite get_blog_slug_run.
    destruct (trackVisitor_frame E req w) as (_ & _ & Hb & _).
    cbv zeta in Hb.
    assert (W : forall k, works E (snd (trackVisitor E req w)) k = true)
      by (intros k; unfold works; now rewrite Hok).
    destruct (blog_handler_views E req (snd (trackVisitor E req w))) as [Hf Hn].
    rewrite Hb in Hf, Hn. split.
    + intros i b Hfind Hv Hrange.
      destruct (Hf i b (W 0%nat) (W 1%nat) Hfind Hv) as [H1 H2].
      destruct (raised_post b Hrange) as [Hviews Hsame].
      eexists. split; [exact H1 |]. split; [exact H2 |].
      split; [exact Hviews | exact Hsame].
    + intros Hfind. apply Hn; auto.
Qed.

(** The amended C7 at a post with 41 views, and at a slug that no post has. *)
Lemma blog_views_incremented_witness :
  map Blog.views (blogs (snd (get_blog_slug env0 (get_slug "hello") world_blog))) = [42%Z] /\
  fst (get_blog_slug env0 (get_slug "nothing") world_blog) =
    Ok (json 404 "Blog post not found") /\
  blogs (snd (get_blog_slug env0 (get_slug "nothing") world_blog)) = blogs world_blog.
Proof.
  destruct (blog_views_incremented env0 (get_slug "hello") world_blog) as (_ & _ & H1).
  destruct H1 as [H1 _]; [reflexivity |].
  destruct (H1 0%nat blog_hello) as (b' & _ & Hb & Hviews & _);
    [reflexivity | reflexivity | cbn; lia |].
  destruct (blog_views_incremented env0 (get_slug "nothing") world_blog) as (_ & _ & H2).
  destruct H2 as [_ H2]; [reflexivity |].
  destruct H2 as [H404 Hsame]; [reflexivity |].
  split; [rewrite Hb; cbn; now rewrite Hviews |].
  split; [exact H404 | exact Hsame].
Defined.

(** ** C8: the status of a stored submission *)

(** The path that creates a submission refuses a status outside the list
    of the schema. *)
Lemma Contact_save_validates (E : env) (d : Contact.doc) (w : world) :
  ~ In (Contact.status d) Contact.status_enum ->
  Contact_save E d w = (Throw, w).
Proof.
  intros H. unfold Contact_save.
  destruct (Contact.validate d) eqn:Hv; [| reflexivity].
  exfalso. apply H. unfold Contact.validate in Hv.
  apply andb_true_iff in Hv as [_ Hv].
  apply existsb_exists in Hv as (x & Hx & Heq).
  apply String.eqb_eq in Heq. now subst.
Qed.

(** C8 fails on the code: an administrator whose token verifies sends the
    status "bogus" for a stored submission.  The update runs no validator:
    the answer is 200 with the updated document, and the stored document
    now has a status that the schema does not list, in a collection whose
    documents all had a listed status before. *)
Theorem patch_stores_unlisted_status :
  Forall (fun c => In (Contact.status c) Contact.status_enum) (contacts world_contact) /\
  fst (patch_admin_contact env0 req_patch_bogus world_contact) =
    Ok {| code := 200;
          content := ContactJson "Contact updated successfully"
                       (Contact.set_status "bogus" contact_new) |} /\
  contacts (snd (patch_admin_contact env0 req_patch_bogus world_contact)) =
    [Contact.set_status "bogus" contact_new] /\
  Contact.status (Contact.set_status "bogus" contact_new) = "bogus" /\
  ~ In "bogus" Contact.status_enum.
Proof.
  split; [repeat constructor; cbn; auto |].
  split; [vm_compute; reflexivity |].
  split; [vm_compute; reflexivity |].
  split; [reflexivity |].
  cbn. intros [H | [H | [H | [H | []]]]]; discriminate.
Qed.

(** ** C5: the limiter of the contact form *)









(** * Further properties of the code *)

(** ** Uploads: the filter of file types and the error middleware *)

Lemma lang_any_star (s : string) : JS.lang (JS.RStar any_char) s.
Proof. apply forall_star_class. induction s; cbn; auto. Qed.

Lemma lang_RLit (w s : string) : JS.lang (RLit w) s <-> s = w.
Proof.
  revert s. induction w as [|c w IH]; intros s; cbn [RLit]; split.
  - intros H. now inversion H.
  - intros ->. constructor.
  - intros H. inversion H as [| |? ? s1 s2 H1 H2| | | |]; subst.
    apply lang_char in H1. apply IH in H2. subst. reflexivity.
  - intros ->. change (String c w) with (String c EmptyString +:+ w).
    constructor; [now apply lang_char | now apply IH].
Qed.

Lemma search_occurs (r : JS.regex) (s : string) :
  search r s = true <-> exists w, JS.lang r w /\ occurs_in w s.
Proof.
  unfold search, occurs_in. rewrite test_lang. split.
  - intros H. inversion H as [| |? ? pre s1 _ H1| | | |]; subst.
    inversion H1 as [| |? ? w post Hw _| | | |]; subst.
    exists w. split; [assumption |]. now exists pre, post.
  - intros (w & Hw & pre & post & ->).
    repeat constructor; auto using lang_any_star.
Qed.

Lemma lang_alt (a b : JS.regex) (w : string) :
  JS.lang (JS.RAlt a b) w <-> JS.lang a w \/ JS.lang b w.
Proof.
  split.
  - intros H. inversion H; subst; auto.
  - intros [H | H]; [now apply JS.lang_alt_l | now apply JS.lang_alt_r].
Qed.

Lemma allowedTypes_lang (w : string) :
  JS.lang allowedTypes w <-> In w allowed_words.
Proof.
  unfold allowedTypes, allowed_words.
  rewrite !lang_alt, !lang_RLit. cbn [In]. intuition congruence.
Qed.

Lemma allowedTypes_search (s : string) :
  search allowedTypes s = true <-> exists w, In w allowed_words /\ occurs_in w s.
Proof.
  rewrite search_occurs. split; intros (w & Hw & Ho); exists w;
    (split; [now apply allowedTypes_lang | assumption]).
Qed.

(** X1: the filter of uploads lets a file through exactly when one of the
    words jpeg, jpg, png, gif and webp occurs somewhere in its mimetype, as
    it came, and one occurs somewhere in the lower-cased extension of its
    name; every other file is refused with the error "Only image files are
    allowed!". *)
Theorem fileFilter_accepts_by_occurrence (extname : string -> string) (f : file) :
  (fileFilter extname f = inr true <->
   (exists w, In w allowed_words /\ occurs_in w (mimetype f)) /\
   (exists w, In w allowed_words /\
              occurs_in w (JS.toLowerCase (extname (originalname f))))) /\
  (fileFilter extname f = inr true \/
   fileFilter extname f = inl (OtherError "Only image files are allowed!")).
Proof.
  unfold fileFilter. cbv zeta.
  rewrite <- !allowedTypes_search.
  destruct (search allowedTypes (mimetype f)),
    (search allowedTypes (JS.toLowerCase (extname (originalname f))));
    cbn; (split; [split; [intros H; try discriminate H; auto
                         | intros [H1 H2]; try discriminate; reflexivity]
                 | auto]).
Qed.

(** X2: the error middleware answers 400 only to a MulterError with the
    code LIMIT_FILE_SIZE; every other error, the refusal of the upload
    filter among them, is answered with 500 "Internal server error". *)
Theorem only_file_size_is_400 (extname : string -> string) (f : file) (e : error) :
  (error_handler e = json 400 "File too large. Maximum size is 5MB." <->
   e = MulterError "LIMIT_FILE_SIZE") /\
  (e <> MulterError "LIMIT_FILE_SIZE" ->
   error_handler e = json 500 "Internal server error") /\
  (fileFilter extname f = inl e ->
   error_handler e = json 500 "Internal server error").
Proof.
  split; [| split].
  - destruct e as [c | m]; cbn; [| split; discriminate].
    destruct (String.eqb c "LIMIT_FILE_SIZE") eqn:Hc.
    + apply String.eqb_eq in Hc. subst. split; reflexivity.
    + split; [discriminate |]. intros [= ->]. discriminate.
  - destruct e as [c | m]; cbn; [| reflexivity].
    destruct (String.eqb c "LIMIT_FILE_SIZE") eqn:Hc; [| reflexivity].
    apply String.eqb_eq in Hc. subst. congruence.
  - unfold fileFilter. cbv zeta. destruct (_ && _); [discriminate |].
    intros [= <-]. reflexivity.
Qed.

(** ** The contact form: what the route does to the collections *)

Lemma passes_validation_dec (req : request) :
  passes_validation req \/ ~ passes_validation req.
Proof.
  unfold passes_validation.
  destruct (JS.truthy (field "name" req)); [| right; intros (H & _); discriminate].
  destruct (JS.truthy (field "email" req)); [| right; intros (_ & H & _); discriminate].
  destruct (JS.truthy (field "subject" req));
    [| right; intros (_ & _ & H & _); discriminate].
  destruct (JS.truthy (field "message" req));
    [| right; intros (_ & _ & _ & H & _); discriminate].
  destruct (JS.ToString (field "email" req)) as [e |];
    [| right; intros (_ & _ & _ & _ & e & H & _); discriminate].
  destruct (JS.test emailRegex e) eqn:Ht.
  - left. repeat split; eauto.
  - right. intros (_ & _ & _ & _ & e' & [= <-] & H). congruence.
Qed.

(** A submission that one of the two checks stops, or whose email cannot be
    turned into a string, is answered without any effect. *)
Lemma contact_handler_rejects (E : env) (req : request) (w : world) :
  ~ passes_validation req ->
  exists r,
    contact_handler E req w = (Ok r, w) /\
    (r = all_fields_required \/ r = invalid_email \/ r = try_again_later).
Proof.
  intros Hnot. run_contact.
  destruct (JS.truthy (field "name" req)) eqn:Tn; cbn; [| eauto].
  destruct (JS.truthy (field "email" req)) eqn:Te; cbn; [| eauto].
  destruct (JS.truthy (field "subject" req)) eqn:Ts; cbn; [| eauto].
  destruct (JS.truthy (field "message" req)) eqn:Tm; cbn; [| eauto].
  destruct (JS.ToString (field "email" req)) as [e |] eqn:Hts; cbn; [| eauto 6].
  destruct (JS.test emailRegex e) eqn:Ht; cbn; [| eauto 6].
  exfalso. apply Hnot. repeat split; eauto.
Qed.

Lemma contact_handler_contacts (E : env) (req : request) (w : world) :
  (contacts (snd (contact_handler E req w)) = contacts w /\
   outbox (snd (contact_handler E req w)) = outbox w /\
   fst (contact_handler E req w) <> Ok message_sent) \/
  exists n e s m,
    field "name" req = JS.JStr n /\ field "email" req = JS.JStr e /\
    field "subject" req = JS.JStr s /\ field "message" req = JS.JStr m /\
    passes_validation req /\
    Contact.validate (contact_of E req w n e s m) = true /\
    contacts (snd (contact_handler E req w)) =
      contacts w ++ [contact_of E req w n e s m] /\
    (fst (contact_handler E req w) = Ok message_sent ->
     outbox (snd (contact_handler E req w)) =
       outbox w ++ [alert_of E req w n e s m; reply_of E n e s m]).
Proof.
  destruct (passes_validation_dec req) as [Hp | Hnot].
  2: { left. destruct (contact_handler_rejects E req w Hnot) as (r & -> & Hr).
       cbn. repeat split; auto.
       destruct Hr as [-> | [-> | ->]]; try discriminate. }
  destruct (string_fields req) eqn:Hstr.
  2: { left. rewrite (contact_handler_not_strings E req w Hp Hstr). cbn.
       repeat split; auto; try discriminate. }
  apply string_fields_inv in Hstr as (n & e & s & m & Hn & He & Hs & Hm).
  destruct (contact_handler_strings E req w n e s m Hn He Hs Hm Hp)
    as (Hr & Hc & Ho & _).
  cbv zeta in Hr, Hc, Ho. rewrite Hr, Hc, Ho.
  destruct (Contact.validate (contact_of E req w n e s m)) eqn:Hv; cbn;
    [| left; repeat split; auto; try discriminate].
  destruct (works E w 0); cbn; [| left; repeat split; auto; try discriminate].
  right. exists n, e, s, m. split_and!; auto.
  destruct (works E w 1), (works E w 2); cbn; intros H;
    try discriminate H; reflexivity.
Qed.

Lemma contact_of_normal (E : env) (req : request) (w : world) (n e s m : string) :
  Contact.status (contact_of E req w n e s m) = "new" /\
  Contact.name (contact_of E req w n e s m) = JS.trim n /\
  Contact.email (contact_of E req w n e s m) = JS.toLowerCase (JS.trim e) /\
  Contact.subject (contact_of E req w n e s m) = JS.trim s /\
  Contact.message (contact_of E req w n e s m) = JS.trim m.
Proof. unfold contact_of. cbn. rewrite !trim_idem, stored_email. auto. Qed.

(** X3: whatever the request and whatever fails, the route of the contact
    form leaves the stored submissions as they are or appends exactly one;
    the appended one has status 'new', passes the validators of the schema,
    and its name, subject and message are trimmed (trimming them again
    changes nothing).  So a collection whose statuses are all in the list of
    the schema stays so. *)
Theorem contact_route_only_appends (E : env) (req : request) (w : world) :
  (contacts (snd (post_contact E req w)) = contacts w \/
   exists c,
     contacts (snd (post_contact E req w)) = contacts w ++ [c] /\
     Contact.status c = "new" /\
     Contact.validate c = true /\
     JS.trim (Contact.name c) = Contact.name c /\
     JS.trim (Contact.subject c) = Contact.subject c /\
     JS.trim (Contact.message c) = Contact.message c) /\
  (statuses_listed (contacts w) ->
   statuses_listed (contacts (snd (post_contact E req w)))).
Proof.
  assert (H : contacts (snd (post_contact E req w)) = contacts w \/
    exists c,
     contacts (snd (post_contact E req w)) = contacts w ++ [c] /\
     Contact.status c = "new" /\
     Contact.validate c = true /\
     JS.trim (Contact.name c) = Contact.name c /\
     JS.trim (Contact.subject c) = Contact.subject c /\
     JS.trim (Contact.message c) = Contact.message c).
  { rewrite post_contact_run. destruct (5 <? _)%nat; [now left |].
    match goal with |- context [trackVisitor E req ?w1] =>
      destruct (trackVisitor_frame E req w1) as (Hc & _);
      destruct (contact_handler_contacts E req (snd (trackVisitor E req w1)))
        as [(Hsame & _) | (n & e & s & m & _ & _ & _ & _ & _ & Hv & Happ & _)]
    end.
    - left. cbv zeta in Hc. cbn in Hc. now rewrite Hsame, Hc.
    - right. cbv zeta in Hc. cbn in Hc. rewrite Hc in Happ.
      eexists. split; [exact Happ |].
      match goal with |- context [contact_of E req ?w2 n e s m] =>
        destruct (contact_of_normal E req w2 n e s m) as (Hst & Hn & _ & Hs & Hm)
      end.
      rewrite Hn, Hs, Hm, !trim_idem. auto. }
  split; [exact H |].
  intros Hl. destruct H as [-> | (c & -> & Hst & _)]; [assumption |].
  apply Forall_app. split; [assumption |].
  constructor; [| constructor]. rewrite Hst. cbn. auto.
Qed.

(** X4: the answer 200 of the contact handler means that exactly one
    submission was stored, built from the four strings of the body, and
    that the transport accepted exactly the alert and the acknowledgment,
    in this order. *)
Theorem success_means_stored_and_sent (E : env) (req : request) (w : world) :
  fst (contact_handler E req w) = Ok message_sent ->
  exists n e s m,
    field "name" req = JS.JStr n /\ field "email" req = JS.JStr e /\
    field "subject" req = JS.JStr s /\ field "message" req = JS.JStr m /\
    contacts (snd (contact_handler E req w)) =
      contacts w ++ [contact_of E req w n e s m] /\
    outbox (snd (contact_handler E req w)) =
      outbox w ++ [alert_of E req w n e s m; reply_of E n e s m].
Proof.
  intros H200.
  destruct (contact_handler_contacts E req w)
    as [(_ & _ & Hno) | (n & e & s & m & Hn & He & Hs & Hm & _ & _ & Hc & Ho)];
    [contradiction |].
  exists n, e, s, m. repeat split; auto.
Qed.

(** X4 at the example of the specification. *)
Lemma success_means_stored_and_sent_witness :
  fst (contact_handler env0 req_example world0) = Ok message_sent /\
  exists n e s m,
    field "name" req_example = JS.JStr n /\ field "email" req_example = JS.JStr e /\
    field "subject" req_example = JS.JStr s /\ field "message" req_example = JS.JStr m /\
    contacts (snd (contact_handler env0 req_example world0)) =
      contacts world0 ++ [contact_of env0 req_example world0 n e s m] /\
    outbox (snd (contact_handler env0 req_example world0)) =
      outbox world0 ++ [alert_of env0 req_example world0 n e s m; reply_of env0 n e s m].
Proof.
  assert (H : fst (contact_handler env0 req_example world0) = Ok message_sent)
    by (vm_compute; reflexivity).
  split; [exact H |].
  exact (success_means_stored_and_sent env0 req_example world0 H).
Defined.

(** X5: a field that is truthy but no string (a number, an array, an
    object) gets past both checks when the other fields do, and then the
    call of [trim] throws: the handler answers 500 "Failed to send message.
    Please try again later.", not 400, and leaves the world as it was. *)
Theorem non_string_field_is_500 (E : env) (req : request) (w : world) :
  passes_validation req ->
  string_fields req = false ->
  contact_handler E req w = (Ok try_again_later, w).
Proof. apply contact_handler_not_strings. Qed.

(** X5 at a submission whose name is the number 5. *)
Lemma non_string_field_is_500_witness :
  passes_validation req_number_name /\
  contact_handler env0 req_number_name world0 = (Ok try_again_later, world0).
Proof.
  assert (Hp : passes_validation req_number_name).
  { repeat split; try reflexivity. exists "a@b.com". split; reflexivity. }
  split; [exact Hp |].
  apply (non_string_field_is_500 env0 req_number_name world0 Hp). reflexivity.
Defined.

(** X6: the contact handler answers every request that reaches it, whatever
    its body holds and whatever fails in storage or in the transport, and
    with one of four answers: 400 "All fields are required", 400 "Invalid
    email format", the 500 of its catch block, or the 200 of success.
    Nothing that is thrown inside the handler leaves it. *)
Theorem contact_handler_four_answers (E : env) (req : request) (w : world) :
  fst (contact_handler E req w) = Ok all_fields_required \/
  fst (contact_handler E req w) = Ok invalid_email \/
  fst (contact_handler E req w) = Ok try_again_later \/
  fst (contact_handler E req w) = Ok message_sent.
Proof.
  destruct (passes_validation_dec req) as [Hp | Hnot].
  - destruct (contact_handler_accepts E req w Hp) as [-> | ->]; auto.
  - destruct (contact_handler_rejects E req w Hnot) as (r & -> & [-> | [-> | ->]]);
      cbn; auto.
Qed.

Lemma forallb_str_append (p : ascii -> bool) (a b : string) :
  JS.forallb_str p (a +:+ b) = JS.forallb_str p a && JS.forallb_str p b.
Proof.
  induction a as [|c a IH]; [reflexivity |].
  rewrite append_cons_l. cbn [JS.forallb_str]. now rewrite IH, andb_assoc.
Qed.

Lemma not_space_at_no_space (x : string) :
  JS.forallb_str not_space_at x = true ->
  JS.forallb_str (fun c => negb (JS.is_space c)) x = true.
Proof.
  induction x as [|c x IH]; [reflexivity |].
  cbn [JS.forallb_str]. intros H. apply andb_true_iff in H as [Hc Hx].
  unfold not_space_at in Hc. apply andb_true_iff in Hc as [Hc _].
  now rewrite Hc, IH.
Qed.

Lemma basic_no_space (e : string) :
  basic_local_domain_tld e ->
  JS.forallb_str (fun c => negb (JS.is_space c)) e = true.
Proof.
  intros (l & d & t & -> & [_ Hl] & [_ Hd] & [_ Ht]).
  apply not_space_at_no_space in Hl, Hd, Ht.
  rewrite !forallb_str_append, Hl, Hd, Ht. reflexivity.
Qed.

Lemma trimEnd_no_space (s : string) :
  JS.forallb_str (fun c => negb (JS.is_space c)) s = true -> JS.trimEnd s = s.
Proof.
  induction s as [|c s IH]; [reflexivity |].
  cbn [JS.forallb_str JS.trimEnd]. intros H.
  apply andb_true_iff in H as [Hc Hs]. rewrite (IH Hs).
  apply negb_true_iff in Hc. rewrite Hc. now destruct s.
Qed.

Lemma trim_no_space (s : string) :
  JS.forallb_str (fun c => negb (JS.is_space c)) s = true -> JS.trim s = s.
Proof.
  intros H. unfold JS.trim.
  assert (Hs : JS.trimStart s = s).
  { destruct s as [|c s]; [reflexivity |].
    cbn [JS.forallb_str] in H. apply andb_true_iff in H as [Hc _].
    apply negb_true_iff in Hc. cbn [JS.trimStart]. now rewrite Hc. }
  rewrite Hs. now apply trimEnd_no_space.
Qed.

(** X7: an email that holds white space anywhere, also before or after the
    address, is answered with 400 and nothing is done: the expression is
    tested before the handler trims.  So trimming changes no email that
    passes the test, and the stored email of an accepted submission is
    exactly the lower-cased email of the body. *)
Theorem email_with_space_rejected (E : env) (req : request) (w : world) (e : string) :
  field "email" req = JS.JStr e ->
  (JS.forallb_str (fun c => negb (JS.is_space c)) e = false ->
   exists m, contact_handler E req w = (Ok (json 400 m), w)) /\
  (JS.test emailRegex e = true -> JS.trim e = e) /\
  (forall c,
      contacts (snd (contact_handler E req w)) = contacts w ++ [c] ->
      Contact.email c = JS.toLowerCase e).
Proof.
  intros He.
  assert (Ht : JS.test emailRegex e = true -> JS.trim e = e).
  { intros H. apply trim_no_space, basic_no_space. now apply emailRegex_test. }
  split; [| split; [exact Ht |]].
  - intros Hsp. apply (contact_handler_bad_email E req w e He).
    destruct (JS.test emailRegex e) eqn:H; [| reflexivity].
    apply emailRegex_test, basic_no_space in H. congruence.
  - intros c Hc.
    destruct (contact_handler_contacts E req w)
      as [(Hsame & _) | (n & e' & s & m & _ & He' & _ & _ & Hp & _ & Happ & _)].
    + rewrite Hsame in Hc. apply (f_equal length) in Hc.
      rewrite length_app in Hc. cbn in Hc. lia.
    + rewrite He in He'. injection He' as <-.
      rewrite Happ in Hc. apply app_inv_head in Hc. injection Hc as <-.
      destruct (contact_of_normal E req w n e s m) as (_ & _ & -> & _).
      destruct Hp as (_ & _ & _ & _ & e'' & Hts & Htest).
      rewrite He in Hts. injection Hts as <-. now rewrite Ht.
Qed.

(** X7 at an email with a space before the address. *)
Lemma email_with_space_rejected_witness :
  field "email" req_spaced_email = JS.JStr " a@b.com" /\
  exists m, contact_handler env0 req_spaced_email world0 = (Ok (json 400 m), world0).
Proof.
  assert (H : field "email" req_spaced_email = JS.JStr " a@b.com") by reflexivity.
  split; [exact H |].
  destruct (email_with_space_rejected env0 req_spaced_email world0 " a@b.com" H)
    as (Hsp & _).
  apply Hsp. reflexivity.
Defined.

(** ** The visitor tracker: what it stores, and when *)

Lemma trackVisitor_visitors (E : env) (req : request) (w : world) :
  visitors (snd (trackVisitor E req w)) = visitors w \/
  (works E w 0 = true /\ works E w 1 = true /\
   exists i v v',
     list_find (fun v => Visitor.ipAddress v = address_of req) (visitors w) =
       Some (i, v) /\
     visitors (snd (trackVisitor E req w)) = <[i := v']> (visitors w) /\
     Visitor.ipAddress v' = Visitor.ipAddress v /\
     Visitor.validate v' = true) \/
  (works E w 0 = true /\ works E w 1 = true /\
   exists v',
     list_find (fun v => Visitor.ipAddress v = address_of req) (visitors w) = None /\
     visitors (snd (trackVisitor E req w)) = visitors w ++ [v'] /\
     Visitor.ipAddress v' = address_of req /\
     Visitor.validate v' = true).
Proof.
  unfold works. cbn [Nat.add].
  run_tracker. split_ifs; try (left; reflexivity);
    rewrite length_app in *; cbn [length] in *; rewrite Nat.add_1_r in *.
  - right; left. split_and!; auto. do 3 eexists. split_and!; eauto.
  - right; right. split_and!; auto. eexists. split_and!; eauto.
Qed.

(** X8: when the read or the write of the tracker fails, no Visitor
    document is added or changed, and the tracker still calls [next()]. *)
Theorem tracker_failure_stores_nothing (E : env) (req : request) (w : world) :
  works E w 0 = false \/ works E w 1 = false ->
  visitors (snd (trackVisitor E req w)) = visitors w /\
  fst (trackVisitor E req w) = Ok Next.
Proof.
  intros Hf. split; [| apply trackVisitor_next].
  destruct (trackVisitor_visitors E req w)
    as [H | [(W0 & W1 & _) | (W0 & W1 & _)]];
    [exact H | destruct Hf; congruence | destruct Hf; congruence].
Qed.

(** X8 at a returning visitor whose document cannot be written. *)
Lemma tracker_failure_stores_nothing_witness :
  works (env_fail 1) world_seen 1 = false /\
  visitors (snd (trackVisitor (env_fail 1) req_example world_seen)) =
    visitors world_seen /\
  fst (trackVisitor (env_fail 1) req_example world_seen) = Ok Next.
Proof.
  split; [reflexivity |].
  apply (tracker_failure_stores_nothing (env_fail 1) req_example world_seen).
  right. reflexivity.
Defined.

(** X9: whatever fails, one run of the tracker never removes a Visitor
    document and adds at most one; the documents of other addresses stay in
    their places unchanged; and if every stored document had an address
    before, every stored document has one after. *)
Theorem tracker_touches_one_address (E : env) (req : request) (w : world) :
  (length (visitors w) <= length (visitors (snd (trackVisitor E req w)))
     <= S (length (visitors w)))%nat /\
  (forall j v,
      visitors w !! j = Some v ->
      Visitor.ipAddress v <> address_of req ->
      visitors (snd (trackVisitor E req w)) !! j = Some v) /\
  (Forall (fun v => Visitor.validate v = true) (visitors w) ->
   Forall (fun v => Visitor.validate v = true)
     (visitors (snd (trackVisitor E req w)))).
Proof.
  destruct (trackVisitor_visitors E req w)
    as [-> | [(_ & _ & i & v & v' & Hfind & -> & Hip & Hv)
             | (_ & _ & v' & Hfind & -> & Hip & Hv)]].
  - split; [lia |]. split; auto.
  - rewrite length_insert. split; [lia |]. split.
    + intros j u Hj Hne. rewrite list_lookup_insert_ne; [assumption |].
      intros <-. apply list_find_Some in Hfind as (Hi & Hp & _). congruence.
    + intros Hall. now apply Forall_insert.
  - rewrite length_app. cbn. split; [lia |]. split.
    + intros j u Hj _. rewrite lookup_app_l; [assumption |].
      now apply lookup_lt_Some in Hj.
    + intros Hall. apply Forall_app. auto.
Qed.

(** X10: a request that comes with no address (an empty [req.ip] and no
    remote address) is tracked in no way: no document is added or changed,
    and the tracker calls [next()]. *)
Theorem tracker_needs_an_address (E : env) (req : request) (w : world) :
  address_of req = None \/ address_of req = Some EmptyString ->
  visitors (snd (trackVisitor E req w)) = visitors w /\
  fst (trackVisitor E req w) = Ok Next.
Proof.
  intros Ha. split; [| apply trackVisitor_next].
  assert (Hbad : forall v, Visitor.ipAddress v = address_of req ->
                           Visitor.validate v = false).
  { intros v Hv. unfold Visitor.validate. rewrite Hv.
    destruct Ha as [-> | ->]; reflexivity. }
  destruct (trackVisitor_visitors E req w)
    as [H | [(_ & _ & i & v & v' & Hfind & _ & Hip & Hv)
            | (_ & _ & v' & _ & _ & Hip & Hv)]]; [exact H | |].
  - apply list_find_Some in Hfind as (_ & Hp & _).
    rewrite (Hbad v') in Hv by congruence. discriminate.
  - rewrite (Hbad v' Hip) in Hv. discriminate.
Qed.

(** X10 at a request without address. *)
Lemma tracker_needs_an_address_witness :
  address_of req_no_address = None /\
  visitors (snd (trackVisitor env0 req_no_address world_seen)) = visitors world_seen.
Proof.
  split; [reflexivity |].
  apply (tracker_needs_an_address env0 req_no_address world_seen).
  left. reflexivity.
Defined.

Lemma list_find_last {A} (P : A -> Prop) `{!forall x, Decision (P x)}
    (pre : list A) (v : A) :
  list_find P pre = None -> P v ->
  list_find P (pre ++ [v]) = Some (length pre, v).
Proof.
  intros Hnone Hv. apply list_find_Some. split_and!.
  - rewrite lookup_app_r by lia. now rewrite Nat.sub_diag.
  - assumption.
  - intros j y Hj Hlt. rewrite lookup_app_l in Hj by assumption.
    apply list_find_None in Hnone.
    apply (Forall_lookup_1 _ _ _ _ Hnone Hj).
Qed.

Lemma insert_last {A} (pre : list A) (v v' : A) :
  <[length pre := v']> (pre ++ [v]) = pre ++ [v'].
Proof. rewrite insert_app_r_alt by lia. now rewrite Nat.sub_diag. Qed.

Lemma works_always (E : env) (w : world) (k : nat) :
  (forall j, fault E j = false) -> works E w k = true.
Proof. intros H. unfold works. now rewrite H. Qed.

Lemma track_returning_more (E : env) (a : string) (pre : list Visitor.doc) :
  (forall k, fault E k = false) -> a <> EmptyString ->
  list_find (fun v => Visitor.ipAddress v = Some a) pre = None ->
  forall (reqs : list request) (w : world) (v : Visitor.doc),
    Forall (fun r => address_of r = Some a) reqs ->
    visitors w = pre ++ [v] -> Visitor.ipAddress v = Some a ->
    exists v',
      visitors (run_each (trackVisitor E) reqs w) = pre ++ [v'] /\
      Visitor.ipAddress v' = Some a /\
      map Visitor.page (Visitor.visitedPages v') =
        map Visitor.page (Visitor.visitedPages v) ++ map originalUrl reqs /\
      Visitor.isReturningVisitor v' =
        Visitor.isReturningVisitor v || negb (Nat.eqb (length reqs) 0).
Proof.
  intros Hok Hne Hpre reqs.
  induction reqs as [|req rest IH]; intros w v Hall Hw Hv.
  - exists v. cbn. rewrite app_nil_r, orb_false_r. auto.
  - apply Forall_cons in Hall as [Ha Hrest].
    assert (Hfind : list_find (fun v => Visitor.ipAddress v = Some a) (visitors w) =
                    Some (length pre, v))
      by (rewrite Hw; now apply list_find_last).
    pose proof (trackVisitor_returning E req w a (length pre) v Ha Hne
                  (works_always E w 0 Hok) (works_always E w 1 Hok) Hfind) as Hrun.
    rewrite Hw, insert_last in Hrun.
    cbn [run_each].
    destruct (IH (snd (trackVisitor E req w)) _ Hrest Hrun Hv)
      as (v' & Hvis & Hip & Hpages & Hret).
    exists v'. split; [exact Hvis |]. split; [exact Hip |]. split.
    + rewrite Hpages. cbn. rewrite map_app. cbn. now rewrite <- app_assoc.
    + rewrite Hret. cbn. now rewrite orb_true_r.
Qed.

(** X11: when nothing fails, a run of requests from one address that has
    no Visitor document yet leaves exactly one new document for it, whose
    visits are the paths of the requests, one per request and in their
    order; the document is flagged as a returning visitor exactly when
    there were at least two requests. *)
Theorem tracker_accumulates_visits (E : env) (w : world) (a : string)
    (reqs : list request) :
  (forall k, fault E k = false) -> a <> EmptyString ->
  Forall (fun r => address_of r = Some a) reqs ->
  list_find (fun v => Visitor.ipAddress v = Some a) (visitors w) = None ->
  reqs <> [] ->
  exists v,
    visitors (run_each (trackVisitor E) reqs w) = visitors w ++ [v] /\
    Visitor.ipAddress v = Some a /\
    map Visitor.page (Visitor.visitedPages v) = map originalUrl reqs /\
    Visitor.isReturningVisitor v = (2 <=? length reqs)%nat.
Proof.
  intros Hok Hne Hall Hnone Hreqs.
  destruct reqs as [|req rest]; [congruence |].
  apply Forall_cons in Hall as [Ha Hrest].
  pose proof (trackVisitor_first_time E req w a Ha Hne
                (works_always E w 0 Hok) (works_always E w 1 Hok) Hnone) as Hrun.
  cbn [run_each].
  destruct (track_returning_more E a (visitors w) Hok Hne Hnone rest
              (snd (trackVisitor E req w)) _ Hrest Hrun eq_refl)
    as (v' & Hvis & Hip & Hpages & Hret).
  exists v'. split; [exact Hvis |]. split; [exact Hip |]. split.
  - rewrite Hpages. reflexivity.
  - rewrite Hret. cbn. now destruct rest.
Qed.

(** X11 at three requests from one address. *)
Lemma tracker_accumulates_visits_witness :
  exists v,
    visitors (run_each (trackVisitor env0)
                [req_example; req_no_name; req_raw] world0) = visitors world0 ++ [v] /\
    Visitor.ipAddress v = Some "203.0.113.9" /\
    map Visitor.page (Visitor.visitedPages v) =
      map originalUrl [req_example; req_no_name; req_raw] /\
    Visitor.isReturningVisitor v = true.
Proof.
  apply (tracker_accumulates_visits env0 world0 "203.0.113.9"
           [req_example; req_no_name; req_raw]).
  - reflexivity.
  - discriminate.
  - repeat constructor.
  - reflexivity.
  - discriminate.
Defined.

(** ** The blog route: failures, fields, repeated fetches *)

Lemma blog_handler_cases (E : env) (req : request) (w : world) :
  (exists i b,
      list_find (fun b => Blog.slug b = param req) (blogs w) = Some (i, b) /\
      fst (blog_handler E req w) =
        Ok {| code := 200;
              content := BlogJson (Blog.set_views (add_numbers (Blog.views b) 1) b) |} /\
      blogs (snd (blog_handler E req w)) =
        <[i := Blog.set_views (add_numbers (Blog.views b) 1) b]> (blogs w)) \/
  ((fst (blog_handler E req w) = Ok (json 404 "Blog post not found") \/
    fst (blog_handler E req w) = Ok (json 500 "Failed to fetch blog post")) /\
   blogs (snd (blog_handler E req w)) = blogs w).
Proof.
  unfold blog_handler, Blog_findOne, Blog_update. unfold_m.
  split_ifs; try (right; split; [auto | reflexivity]).
  left. eauto.
Qed.

(** X12: the handler of a blog post has three answers only: 200 with the
    post and its raised counter, 404 "Blog post not found", and 500 "Failed
    to fetch blog post"; with 404 and with 500, also when it is the write
    of the raised counter that fails, every stored post, and so every view
    counter, is as it was. *)
Theorem blog_failure_changes_nothing (E : env) (req : request) (w : world) :
  (exists b, fst (blog_handler E req w) = Ok {| code := 200; content := BlogJson b |}) \/
  ((fst (blog_handler E req w) = Ok (json 404 "Blog post not found") \/
    fst (blog_handler E req w) = Ok (json 500 "Failed to fetch blog post")) /\
   blogs (snd (blog_handler E req w)) = blogs w).
Proof.
  destruct (blog_handler_cases E req w) as [(i & b & _ & Hr & _) | H];
    [left; eauto | right; exact H].
Qed.

(** X13: whatever fails, a fetch changes nothing but view counters: the
    stored posts keep their number, order, ids, slugs, titles, contents,
    publication flags and likes. *)
Theorem blog_fetch_changes_views_only (E : env) (req : request) (w : world) :
  map (fun b => (Blog._id b, Blog.slug b, Blog.title b, Blog.content b,
                 Blog.published b, Blog.likes b))
    (blogs (snd (get_blog_slug E req w))) =
  map (fun b => (Blog._id b, Blog.slug b, Blog.title b, Blog.content b,
                 Blog.published b, Blog.likes b))
    (blogs w).
Proof.
  rewrite get_blog_slug_run.
  destruct (trackVisitor_frame E req w) as (_ & _ & Hb & _). cbv zeta in Hb.
  rewrite <- Hb.
  destruct (blog_handler_cases E req (snd (trackVisitor E req w)))
    as [(i & b & Hfind & _ & ->) | (_ & ->)]; [| reflexivity].
  apply list_find_Some in Hfind as (Hi & _).
  change (map ?f ?l) with (f <$> l).
  rewrite list_fmap_insert. cbn.
  apply list_insert_id. rewrite list_lookup_fmap, Hi. reflexivity.
Qed.

Lemma list_find_same_key {A} (P : A -> Prop) `{!forall x, Decision (P x)}
    (l : list A) (i : nat) (x y : A) :
  list_find P l = Some (i, x) -> P y -> list_find P (<[i := y]> l) = Some (i, y).
Proof.
  intros Hfind Hy. apply list_find_Some in Hfind as (Hi & _ & Hleast).
  apply list_find_Some. split_and!.
  - apply list_lookup_insert_eq. now apply lookup_lt_Some in Hi.
  - assumption.
  - intros j z Hj Hlt. rewrite list_lookup_insert_ne in Hj by lia.
    now apply (Hleast j).
Qed.

Lemma get_blog_slug_found (E : env) (req : request) (w : world)
    (i : nat) (b : Blog.doc) :
  (forall k, fault E k = false) ->
  list_find (fun b => Blog.slug b = param req) (blogs w) = Some (i, b) ->
  Blog.validate b = true ->
  blogs (snd (get_blog_slug E req w)) =
    <[i := Blog.set_views (add_numbers (Blog.views b) 1) b]> (blogs w).
Proof.
  intros Hok Hfind Hv. rewrite get_blog_slug_run.
  destruct (trackVisitor_frame E req w) as (_ & _ & Hb & _). cbv zeta in Hb.
  destruct (blog_handler_views E req (snd (trackVisitor E req w))) as [Hf _].
  rewrite Hb in Hf.
  destruct (Hf i b) as (_ & H); auto using works_always.
Qed.

Lemma fetches_add_up (E : env) (slug : string) (i : nat) :
  (forall k, fault E k = false) ->
  forall (reqs : list request) (w : world) (b : Blog.doc),
    Forall (fun r => param r = slug) reqs ->
    list_find (fun b => Blog.slug b = slug) (blogs w) = Some (i, b) ->
    Blog.validate b = true ->
    (- 2 ^ 53 <= Blog.views b)%Z ->
    (Blog.views b + Z.of_nat (length reqs) <= 2 ^ 53)%Z ->
    blogs (run_each (get_blog_slug E) reqs w) =
      <[i := Blog.set_views (Blog.views b + Z.of_nat (length reqs)) b]> (blogs w).
Proof.
  intros Hok reqs.
  induction reqs as [|req rest IH]; intros w b Hall Hfind Hv Hlo Hhi.
  - cbn. rewrite Z.add_0_r. symmetry. apply list_insert_id.
    apply list_find_Some in Hfind as (Hi & _). rewrite Hi. now destruct b.
  - apply Forall_cons in Hall as [Hp Hrest]. cbn [run_each].
    cbn [length] in Hhi. rewrite Nat2Z.inj_succ in Hhi.
    assert (Hblogs := get_blog_slug_found E req w i b Hok).
    rewrite Hp in Hblogs. specialize (Hblogs Hfind Hv).
    rewrite add_one_exact in Hblogs by lia.
    rewrite (IH (snd (get_blog_slug E req w))
               (Blog.set_views (Blog.views b + 1) b) Hrest).
    + rewrite Hblogs, list_insert_insert_eq.
      unfold Blog.set_views. cbn [Blog.views Blog._id Blog.title Blog.slug
        Blog.content Blog.published Blog.likes length].
      rewrite <- Z.add_assoc.
      replace (1 + Z.of_nat (length rest))%Z with (Z.of_nat (S (length rest)))
        by lia.
      reflexivity.
    + rewrite Hblogs. apply list_find_same_key with (x := b); [assumption |].
      apply list_find_Some in Hfind as (_ & Hslug & _). exact Hslug.
    + exact Hv.
    + cbn. lia.
    + cbn. lia.
Qed.

(** X14: when nothing fails, the first post [b] with a slug passes the
    validators of the schema, and its counter is an integer that stays
    between -2^53 and 2^53 during the run, then fetching that slug n times,
    among fetches of no other slug, leaves in the place of [b] a post whose
    view counter is that of [b] raised by exactly n and whose other fields
    are those of [b], and changes no other post. *)
Theorem blog_fetches_add_up (E : env) (slug : string) (i : nat) (b : Blog.doc)
    (reqs : list request) (w : world) :
  (forall k, fault E k = false) ->
  Forall (fun r => param r = slug) reqs ->
  list_find (fun b => Blog.slug b = slug) (blogs w) = Some (i, b) ->
  Blog.validate b = true ->
  (- 2 ^ 53 <= Blog.views b)%Z ->
  (Blog.views b + Z.of_nat (length reqs) <= 2 ^ 53)%Z ->
  exists b',
    blogs (run_each (get_blog_slug E) reqs w) = <[i := b']> (blogs w) /\
    Blog.views b' = (Blog.views b + Z.of_nat (length reqs))%Z /\
    (Blog._id b', Blog.title b', Blog.slug b', Blog.content b',
     Blog.published b', Blog.likes b') =
    (Blog._id b, Blog.title b, Blog.slug b, Blog.content b,
     Blog.published b, Blog.likes b) /\
    (forall j, j <> i ->
       blogs (run_each (get_blog_slug E) reqs w) !! j = blogs w !! j).
Proof.
  intros Hok Hall Hfind Hv Hlo Hhi.
  rewrite (fetches_add_up E slug i Hok reqs w b Hall Hfind Hv Hlo Hhi).
  eexists. split; [reflexivity |]. split; [reflexivity |].
  split; [reflexivity |].
  intros j Hj. now apply list_lookup_insert_ne.
Qed.

(** X14 at three fetches of a post with 41 views. *)
Lemma blog_fetches_add_up_witness :
  map Blog.views
    (blogs (run_each (get_blog_slug env0) (replicate 3 (get_slug "hello")) world_blog)) =
  [44%Z].
Proof.
  destruct (blog_fetches_add_up env0 "hello" 0 blog_hello
              (replicate 3 (get_slug "hello")) world_blog) as (b' & Hb & Hviews & _).
  - reflexivity.
  - repeat constructor.
  - reflexivity.
  - reflexivity.
  - cbn. lia.
  - cbn. lia.
  - rewrite Hb. cbn. now rewrite Hviews.
Defined.

(** ** The gate of the administration routes *)

Lemma authenticateToken_world (E : env) (req : request) (w : world) :
  snd (authenticateToken E req w) = w.
Proof.
  unfold authenticateToken, ret.
  destruct (authorization req) as [[| c h] |]; [reflexivity | | reflexivity].
  cbn [JS.is_empty].
  destruct (split " " (String c h) !! 1%nat) as [tok |]; [| reflexivity].
  destruct (JS.is_empty tok); [reflexivity |].
  destruct (jwt_verify E tok); reflexivity.
Qed.

Lemma authenticateToken_by_word (E : env) (req : request) (w : world) :
  fst (authenticateToken E req w) =
    Ok (match authorization req with
        | None => Respond (json 401 "Access token required")
        | Some h =>
            match second_word h with
            | None => Respond (json 401 "Access token required")
            | Some tok =>
                if JS.is_empty tok then Respond (json 401 "Access token required")
                else if jwt_verify E tok then Next
                else Respond (json 403 "Invalid token")
            end
        end).
Proof.
  unfold authenticateToken, ret.
  destruct (authorization req) as [[| c h] |]; [reflexivity | | reflexivity].
  cbn [JS.is_empty]. unfold second_word.
  destruct (split " " (String c h) !! 1%nat) as [tok |]; [| reflexivity].
  destruct (JS.is_empty tok); [reflexivity |].
  destruct (jwt_verify E tok); reflexivity.
Qed.

Lemma patch_admin_contact_run (E : env) (req : request) (w : world) :
  patch_admin_contact E req w =
    match fst (authenticateToken E req w) with
    | Ok Next => patch_handler E req w
    | Ok (Respond r) => (Ok r, w)
    | Throw => (Throw, w)
    end.
Proof.
  unfold patch_admin_contact, route. unfold bind at 1.
  pose proof (authenticateToken_world E req w) as Hw.
  destruct (authenticateToken E req w) as [[[| r] |] w']; cbn in *; subst;
    reflexivity.
Qed.

(** X15: the gate calls [next()] exactly when the authorization header has
    a second word, separated from the first by one space, that is not empty
    and that [jwt.verify] accepts.  The first word is not looked at, so any
    scheme passes, and neither are the words after the second; the gate
    changes nothing in the world. *)
Theorem gate_decides_by_second_word (E : env) (req : request) (w : world) :
  (fst (authenticateToken E req w) = Ok Next <->
   exists h tok,
     authorization req = Some h /\ second_word h = Some tok /\
     tok <> EmptyString /\ jwt_verify E tok = true) /\
  snd (authenticateToken E req w) = w.
Proof.
  split; [| apply authenticateToken_world].
  rewrite authenticateToken_by_word. split.
  - destruct (authorization req) as [h |]; [| discriminate].
    destruct (second_word h) as [tok |] eqn:Hw; [| discriminate].
    destruct tok as [| c tok]; [discriminate |]. cbn.
    destruct (jwt_verify E (String c tok)) eqn:Hv; [| discriminate].
    intros _. exists h, (String c tok). split_and!; auto; try discriminate.
  - intros (h & tok & -> & -> & Hne & Hv).
    rewrite (is_empty_false tok Hne), Hv. reflexivity.
Qed.

(** X16: a request to the update route that the gate stops is answered
    with 401 "Access token required" when the header is missing or has no
    second word, and with 403 "Invalid token" when the second word does
    not verify; in both cases the handler does not run and the world is
    left as it was. *)
Theorem stopped_at_the_gate (E : env) (req : request) (w : world) :
  (authorization req = None \/
   (exists h, authorization req = Some h /\
              (second_word h = None \/ second_word h = Some EmptyString)) ->
   patch_admin_contact E req w = (Ok (json 401 "Access token required"), w)) /\
  (forall h tok,
      authorization req = Some h -> second_word h = Some tok ->
      tok <> EmptyString -> jwt_verify E tok = false ->
      patch_admin_contact E req w = (Ok (json 403 "Invalid token"), w)).
Proof.
  split.
  - intros H. rewrite patch_admin_contact_run, authenticateToken_by_word.
    destruct H as [-> | (h & -> & [-> | ->])]; reflexivity.
  - intros h tok Hh Hw Hne Hv.
    rewrite patch_admin_contact_run, authenticateToken_by_word, Hh, Hw.
    rewrite (is_empty_false tok Hne), Hv. reflexivity.
Qed.

(** ** The update of a stored submission *)

Lemma patch_handler_string (E : env) (req : request) (w : world) (s : string) :
  field "status" req = JS.JStr s ->
  patch_handler E req w =
    let stamped := String.eqb s "read" || String.eqb s "replied" in
    let w1 := if stamped then with_ticks (S (ticks w)) w else w in
    let readAt := if String.eqb s "read" then Some (clock E (ticks w)) else None in
    let repliedAt :=
      if String.eqb s "replied" then Some (clock E (ticks w)) else None in
    try_catch
      (bind (Contact_findByIdAndUpdate E (param req) (JS.JStr s) readAt repliedAt)
         (fun contact =>
            match contact with
            | None => ret (json 404 "Contact not found")
            | Some c =>
                ret {| code := 200;
                       content := ContactJson "Contact updated successfully" c |}
            end))
      (ret (json 500 "Failed to update contact")) w1.
Proof.
  intros Hs. unfold patch_handler, date_if_status. rewrite Hs.
  destruct (String.eqb s "read") eqn:Hr.
  - apply String.eqb_eq in Hr. subst s. reflexivity.
  - destruct (String.eqb s "replied"); reflexivity.
Qed.

(** X17: an id that cannot be cast is answered with 500 "Failed to update
    contact", whatever the status in the body: the cast fails before the
    collection is touched, so no operation on storage is attempted and the
    stored submissions are as they were. *)
Theorem patch_bad_id_is_500 (E : env) (req : request) (w : world) :
  castObjectId E (param req) = None ->
  fst (patch_handler E req w) = Ok (json 500 "Failed to update contact") /\
  contacts (snd (patch_handler E req w)) = contacts w /\
  trace (snd (patch_handler E req w)) = trace w.
Proof.
  intros Hid.
  unfold patch_handler, Contact_findByIdAndUpdate, date_if_status. unfold_m.
  rewrite Hid.
  destruct (field "status" req) as [| s |]; cbn; auto.
  destruct (String.eqb s "read"), (String.eqb s "replied"); cbn; auto.
Qed.

(** X17 at an id that the cast refuses. *)
Lemma patch_bad_id_is_500_witness :
  castObjectId env0 "zz" = None /\
  fst (patch_handler env0 (patch (Some "Bearer good-token") "zz" (JS.JStr "read"))
         world_contact) = Ok (json 500 "Failed to update contact") /\
  contacts (snd (patch_handler env0
                   (patch (Some "Bearer good-token") "zz" (JS.JStr "read"))
                   world_contact)) = contacts world_contact.
Proof.
  split; [reflexivity |].
  destruct (patch_bad_id_is_500 env0
              (patch (Some "Bearer good-token") "zz" (JS.JStr "read")) world_contact)
    as (H1 & H2 & _); [reflexivity |].
  split; assumption.
Defined.

(** X18: when the id casts to [k], the status is a string, the operation
    on storage succeeds and no stored submission has the id [k], the
    handler answers 404 "Contact not found" and the stored submissions are
    as they were. *)
Theorem patch_unknown_id_is_404 (E : env) (req : request) (w : world)
    (k : nat) (s : string) :
  castObjectId E (param req) = Some k ->
  field "status" req = JS.JStr s ->
  works E w 0 = true ->
  list_find (fun c => Contact._id c = k) (contacts w) = None ->
  fst (patch_handler E req w) = Ok (json 404 "Contact not found") /\
  contacts (snd (patch_handler E req w)) = contacts w.
Proof.
  intros Hid Hs W0 Hfind. apply works_0 in W0.
  rewrite (patch_handler_string E req w s Hs). cbv zeta.
  unfold Contact_findByIdAndUpdate, cast_status. unfold_m. rewrite Hid.
  destruct (String.eqb s "read" || String.eqb s "replied"); cbn;
    rewrite W0; cbn; rewrite Hfind; cbn; auto.
Qed.

(** X18 at an id that casts but that no stored submission has. *)
Lemma patch_unknown_id_is_404_witness :
  fst (patch_handler env0 (patch (Some "Bearer good-token") "c7" (JS.JStr "read"))
         world0) = Ok (json 404 "Contact not found") /\
  contacts (snd (patch_handler env0
                   (patch (Some "Bearer good-token") "c7" (JS.JStr "read"))
                   world0)) = contacts world0.
Proof.
  apply (patch_unknown_id_is_404 env0
           (patch (Some "Bearer good-token") "c7" (JS.JStr "read")) world0 7 "read");
    reflexivity.
Defined.

Lemma patch_handler_found (E : env) (req : request) (w : world)
    (k i : nat) (s : string) (c : Contact.doc) :
  castObjectId E (param req) = Some k ->
  field "status" req = JS.JStr s ->
  works E w 0 = true ->
  list_find (fun c => Contact._id c = k) (contacts w) = Some (i, c) ->
  let c' :=
    apply_opt Contact.set_repliedAt
      (if String.eqb s "replied" then Some (clock E (ticks w)) else None)
      (apply_opt Contact.set_readAt
         (if String.eqb s "read" then Some (clock E (ticks w)) else None)
         (Contact.set_status s c)) in
  fst (patch_handler E req w) =
    Ok {| code := 200; content := ContactJson "Contact updated successfully" c' |} /\
  contacts (snd (patch_handler E req w)) = <[i := c']> (contacts w).
Proof.
  intros Hid Hs W0 Hfind. apply works_0 in W0.
  rewrite (patch_handler_string E req w s Hs). cbv zeta.
  unfold Contact_findByIdAndUpdate, cast_status. unfold_m. rewrite Hid.
  destruct (String.eqb s "read" || String.eqb s "replied"); cbn;
    rewrite W0; cbn; rewrite Hfind; cbn; auto.
Qed.

(** X19: when the id casts to [k], the status of the body is the string
    [s], the operation on storage succeeds and [c] is the first stored
    submission with the id [k], the handler answers 200 with the updated
    submission and stores it in the place of [c]: its status is [s], its
    id, name, email, subject, message and creation time are those of [c],
    [readAt] is the time of the request when [s] is 'read' and [repliedAt]
    when [s] is 'replied'; no other submission changes and none is added or
    removed.  If [s] is one of the statuses of the schema, a collection
    whose statuses were all listed stays so. *)
Theorem patch_updates_one_submission (E : env) (req : request) (w : world)
    (k i : nat) (s : string) (c : Contact.doc) :
  castObjectId E (param req) = Some k ->
  field "status" req = JS.JStr s ->
  works E w 0 = true ->
  list_find (fun c => Contact._id c = k) (contacts w) = Some (i, c) ->
  exists c',
    fst (patch_handler E req w) =
      Ok {| code := 200; content := ContactJson "Contact updated successfully" c' |} /\
    contacts (snd (patch_handler E req w)) = <[i := c']> (contacts w) /\
    Contact.status c' = s /\
    (Contact._id c', Contact.name c', Contact.email c', Contact.subject c',
     Contact.message c', Contact.createdAt c') =
    (Contact._id c, Contact.name c, Contact.email c, Contact.subject c,
     Contact.message c, Contact.createdAt c) /\
    (s = "read" -> Contact.readAt c' = Some (clock E (ticks w))) /\
    (s = "replied" -> Contact.repliedAt c' = Some (clock E (ticks w))) /\
    length (contacts (snd (patch_handler E req w))) = length (contacts w) /\
    (forall j, j <> i ->
       contacts (snd (patch_handler E req w)) !! j = contacts w !! j) /\
    (In s Contact.status_enum -> statuses_listed (contacts w) ->
     statuses_listed (contacts (snd (patch_handler E req w)))).
Proof.
  intros Hid Hs W0 Hfind.
  destruct (patch_handler_found E req w k i s c Hid Hs W0 Hfind) as [Hr Hc].
  cbv zeta in Hr, Hc. eexists. split; [exact Hr |]. split; [exact Hc |].
  rewrite Hc, length_insert.
  assert (Hst : forall a b,
             Contact.status (apply_opt Contact.set_repliedAt a
                               (apply_opt Contact.set_readAt b
                                  (Contact.set_status s c))) = s)
    by (intros [t1 |] [t2 |]; reflexivity).
  split; [apply Hst |]. split.
  { destruct (String.eqb s "replied"), (String.eqb s "read"); reflexivity. }
  split.
  { intros ->. cbn. reflexivity. }
  split.
  { intros ->. cbn. reflexivity. }
  split; [reflexivity |]. split.
  { intros j Hj. now apply list_lookup_insert_ne. }
  intros Hin Hall. apply Forall_insert; [assumption |]. now rewrite Hst.
Qed.

(** X19 at the stored submission of id 7, set to 'read' at the time 0. *)
Lemma patch_updates_one_submission_witness :
  exists c',
    contacts (snd (patch_handler env0
                     (patch (Some "Bearer good-token") "c7" (JS.JStr "read"))
                     world_contact)) = [c'] /\
    Contact.status c' = "read" /\
    Contact.readAt c' = Some 0%Z.
Proof.
  destruct (patch_updates_one_submission env0
              (patch (Some "Bearer good-token") "c7" (JS.JStr "read"))
              world_contact 7 0 "read" contact_new)
    as (c' & _ & Hc & Hst & _ & Hread & _); try reflexivity.
  exists c'. split; [exact Hc |]. split; [exact Hst |].
  now apply Hread.
Defined.

(** ** The header of a request with a token *)

Lemma split_no_sep (sep : ascii) (s : string) :
  JS.includes sep s = false -> split sep s = [s].
Proof.
  induction s as [|c s IH]; [reflexivity |].
  cbn [JS.includes split]. intros H. apply orb_false_iff in H as [Hc Hs].
  rewrite Ascii.eqb_sym, Hc, (IH Hs). reflexivity.
Qed.

Lemma split_first (sep : ascii) (a rest : string) :
  JS.includes sep a = false ->
  split sep (a +:+ String sep rest) = a :: split sep rest.
Proof.
  induction a as [|c a IH]; intros H.
  - rewrite append_nil_l. cbn [split]. now rewrite Ascii.eqb_refl.
  - cbn [JS.includes] in H. apply orb_false_iff in H as [Hc Ha].
    rewrite append_cons_l. cbn [split].
    rewrite Ascii.eqb_sym, Hc, (IH Ha). reflexivity.
Qed.

(** X20: for a header made of a scheme word, one space and a token, both
    without spaces, the word that the gate verifies is the token, also when
    more words follow after another space; so such a request passes the
    gate exactly when the token is not empty and verifies, whatever the
    scheme.  With two spaces after the scheme the word is empty, and the
    request is answered with 401. *)
Theorem token_is_second_word (E : env) (req : request) (w : world)
    (scheme tok rest : string) :
  JS.includes " " scheme = false -> JS.includes " " tok = false ->
  second_word (scheme +:+ " " +:+ tok) = Some tok /\
  second_word (scheme +:+ " " +:+ tok +:+ " " +:+ rest) = Some tok /\
  second_word (scheme +:+ " " +:+ " " +:+ tok) = Some EmptyString /\
  (authorization req = Some (scheme +:+ " " +:+ tok) ->
   (fst (authenticateToken E req w) = Ok Next <->
    tok <> EmptyString /\ jwt_verify E tok = true)).
Proof.
  intros Hs Ht. unfold second_word.
  assert (H1 : split " " (scheme +:+ " " +:+ tok) !! 1%nat = Some tok).
  { change (" " +:+ tok) with (String " " tok).
    rewrite (split_first " " scheme tok Hs), (split_no_sep " " tok Ht).
    reflexivity. }
  split; [exact H1 |]. split; [| split].
  - change (" " +:+ tok +:+ " " +:+ rest) with (String " " (tok +:+ String " " rest)).
    rewrite (split_first " " scheme _ Hs), (split_first " " tok rest Ht).
    reflexivity.
  - change (" " +:+ " " +:+ tok) with (String " " (EmptyString +:+ String " " tok)).
    rewrite (split_first " " scheme _ Hs), (split_first " " EmptyString tok eq_refl).
    reflexivity.
  - intros Ha. rewrite authenticateToken_by_word, Ha.
    unfold second_word. rewrite H1.
    destruct tok as [| c tok]; cbn.
    + split; [discriminate | intros [H _]; congruence].
    + destruct (jwt_verify E (String c tok)); split; auto; try discriminate.
      intros [_ H]. discriminate.
Qed.

(** X20 at the headers "Bearer good-token" and "Basic good-token". *)
Lemma token_is_second_word_witness :
  fst (authenticateToken env0 (patch (Some "Bearer good-token") "c7" (JS.JStr "read"))
         world0) = Ok Next /\
  fst (authenticateToken env0 (patch (Some "Basic good-token") "c7" (JS.JStr "read"))
         world0) = Ok Next.
Proof.
  split.
  - destruct (token_is_second_word env0
                (patch (Some "Bearer good-token") "c7" (JS.JStr "read")) world0
                "Bearer" "good-token" EmptyString eq_refl eq_refl) as (_ & _ & _ & H).
    apply H; [reflexivity |]. split; [discriminate | reflexivity].
  - destruct (token_is_second_word env0
                (patch (Some "Basic good-token") "c7" (JS.JStr "read")) world0
                "Basic" "good-token" EmptyString eq_refl eq_refl) as (_ & _ & _ & H).
    apply H; [reflexivity |]. split; [discriminate | reflexivity].
Defined.

(** ** Each route keeps to its collections *)

Lemma contact_handler_frame (E : env) (req : request) (w : world) :
  visitors (snd (contact_handler E req w)) = visitors w /\
  blogs (snd (contact_handler E req w)) = blogs w.
Proof.
  run_contact.
  destruct (field "name" req), (field "email" req), (field "subject" req),
    (field "message" req); split_ifs; auto.
Qed.

Lemma blog_handler_frame (E : env) (req : request) (w : world) :
  contacts (snd (blog_handler E req w)) = contacts w /\
  visitors (snd (blog_handler E req w)) = visitors w /\
  outbox (snd (blog_handler E req w)) = outbox w.
Proof.
  unfold blog_handler, Blog_findOne, Blog_update. unfold_m.
  split_ifs; auto.
Qed.

Lemma patch_handler_frame (E : env) (req : request) (w : world) :
  visitors (snd (patch_handler E req w)) = visitors w /\
  blogs (snd (patch_handler E req w)) = blogs w /\
  outbox (snd (patch_handler E req w)) = outbox w /\
  length (contacts (snd (patch_handler E req w))) = length (contacts w).
Proof.
  unfold patch_handler, Contact_findByIdAndUpdate, cast_status, date_if_status.
  unfold_m.
  destruct (field "status" req) as [| s |]; split_ifs;
    rewrite ?length_insert; auto.
Qed.

(** X21: whatever the request and whatever fails, each route keeps to its
    collections.  The route of the contact form changes no blog post; the
    route of a blog post changes no stored submission and sends no mail;
    the update route changes no visitor and no blog post, sends no mail,
    and neither adds nor removes a stored submission. *)
Theorem routes_keep_to_their_collections (E : env) (req : request) (w : world) :
  blogs (snd (post_contact E req w)) = blogs w /\
  (contacts (snd (get_blog_slug E req w)) = contacts w /\
   outbox (snd (get_blog_slug E req w)) = outbox w) /\
  (visitors (snd (patch_admin_contact E req w)) = visitors w /\
   blogs (snd (patch_admin_contact E req w)) = blogs w /\
   outbox (snd (patch_admin_contact E req w)) = outbox w /\
   length (contacts (snd (patch_admin_contact E req w))) = length (contacts w)).
Proof.
  split; [| split].
  - rewrite post_contact_run. destruct (5 <? _)%nat; [reflexivity |].
    match goal with |- context [trackVisitor E req ?w1] =>
      destruct (trackVisitor_frame E req w1) as (_ & _ & Hb & _);
      destruct (contact_handler_frame E req (snd (trackVisitor E req w1))) as (_ & Hb')
    end.
    cbv zeta in Hb. cbn in Hb. now rewrite Hb', Hb.
  - rewrite get_blog_slug_run.
    destruct (trackVisitor_frame E req w) as (Hc & Ho & _). cbv zeta in Hc, Ho.
    destruct (blog_handler_frame E req (snd (trackVisitor E req w)))
      as (Hc' & _ & Ho').
    now rewrite Hc', Ho', Hc, Ho.
  - rewrite patch_admin_contact_run, authenticateToken_by_word.
    destruct (authorization req) as [h |]; [| cbn; auto].
    destruct (second_word h) as [tok |]; [| cbn; auto].
    destruct (JS.is_empty tok); [cbn; auto |].
    destruct (jwt_verify E tok); [| cbn; auto].
    apply patch_handler_frame.
Qed.
